(** * Block write threshold notification (block/write-threshold.c)

    A shallow embedding of QEMU's write-threshold code: the exceedance
    computation, the legacy per-node threshold with its before-write
    notifier, and the [write-threshold] filter driver.

    C integers are mathematical integers ([Z]) with the conversions and
    the wrap-around of [uint64_t] arithmetic written out.  Functions that
    mutate a [BlockDriverState] through a pointer take the node and
    return the updated node; functions that also reach the monitor or the
    child node run in a small state-and-failure monad over a [World]. *)

From Stdlib Require Import ZArith List String Bool Lia.
Import ListNotations.

Local Open Scope Z_scope.

(** ** Fixed-width integers *)

Module Int.

Definition UINT64_MAX : Z := 18446744073709551615.

Definition modulus : Z := UINT64_MAX + 1.

(** Conversion of an integer value to [uint64_t]: reduction modulo 2^64. *)
Definition u64 (z : Z) : Z := z mod modulus.

(** Conversion of an integer value to [int64_t] (two's complement). *)
Definition s64 (z : Z) : Z := (z + modulus / 2) mod modulus - modulus / 2.

(** [a + b] and [a - b] on [uint64_t] operands. *)
Definition add64 (a b : Z) : Z := u64 (a + b).
Definition sub64 (a b : Z) : Z := u64 (a - b).

(** The values a [uint64_t] object can hold. *)
Definition is_u64 (z : Z) : Prop := 0 <= z <= UINT64_MAX.

End Int.

Import Int.

(** ** The exceedance computation *)

(** [bdrv_write_threshold_exceeded]: [if (threshold)] tests for a nonzero
    value, the comparisons are on [uint64_t] operands, and each [+] and
    [-] is a [uint64_t] operation. *)
Definition bdrv_write_threshold_exceeded (threshold offset bytes : Z) : Z :=
  if negb (threshold =? 0) then
    if offset >? threshold then
      add64 (sub64 offset threshold) bytes
    else if add64 offset bytes >? threshold then
      sub64 (add64 offset bytes) threshold
    else 0
  else 0.

(** The same computation over unbounded integers, without any reduction
    modulo 2^64. *)
Definition exceeded_exact (threshold offset bytes : Z) : Z :=
  if negb (threshold =? 0) then
    if offset >? threshold then
      (offset - threshold) + bytes
    else if offset + bytes >? threshold then
      (offset + bytes) - threshold
    else 0
  else 0.

(** The reference definition for an armed threshold: the part of
    [offset + bytes] beyond the mark. *)
Definition exceeded_reference (threshold offset bytes : Z) : Z :=
  Z.max 0 ((offset + bytes) - threshold).

(** What the assumed [assert((offset + bytes) <= UINT64_MAX)] of the
    header says about a request. *)
Definition request_in_range (offset bytes : Z) : Prop :=
  is_u64 offset /\ is_u64 bytes /\ offset + bytes <= UINT64_MAX.


(** ** Data model *)

(** The payload of a vectored request; the filter only hands it on. *)
Definition QEMUIOVector : Type := list Byte.byte.

(** Entries of a node's [before_write_notifiers] list.
    [WriteThresholdNotifier] is the node's own [write_threshold_notifier],
    the one whose callback is [before_write_notify]. *)
Inductive Notifier : Type :=
| WriteThresholdNotifier
| OtherNotifier (id : nat).

Definition Notifier_eq_dec (a b : Notifier) : {a = b} + {a <> b}.
Proof. decide equality. apply Nat.eq_dec. Defined.

(** The fields of [BlockDriverState] this file reads or writes.  [opaque]
    is the driver's instance storage, which for the filter is one
    [uint64_t] ([instance_size = sizeof(uint64_t)]); [file] is [NULL]
    ([None]) or the node's child. *)
Inductive BlockDriverState : Type := mkBDS {
  node_name : string;
  write_threshold_offset : Z;
  before_write_notifiers : list Notifier;
  opaque : Z;
  file : option BdrvChild
}
with BdrvChild : Type := mkChild {
  c_bs : BlockDriverState
}.

Definition set_write_threshold_offset (v : Z) (bs : BlockDriverState) :=
  mkBDS (node_name bs) v (before_write_notifiers bs) (opaque bs) (file bs).

Definition set_before_write_notifiers (l : list Notifier) (bs : BlockDriverState) :=
  mkBDS (node_name bs) (write_threshold_offset bs) l (opaque bs) (file bs).

Definition set_opaque (v : Z) (bs : BlockDriverState) :=
  mkBDS (node_name bs) (write_threshold_offset bs) (before_write_notifiers bs)
        v (file bs).

Definition set_file (c : option BdrvChild) (bs : BlockDriverState) :=
  mkBDS (node_name bs) (write_threshold_offset bs) (before_write_notifiers bs)
        (opaque bs) c.

(** The part of [BdrvTrackedRequest] the notifier reads.  Its [bs] field
    points to the node the request is tracked on, which is the node held
    in the [World] the notifier runs in. *)
Record BdrvTrackedRequest : Type := mkReq {
  req_offset : Z;
  req_bytes : Z
}.

(** A [BLOCK_WRITE_THRESHOLD] event as it reaches the monitor. *)
Record BlockWriteThresholdEvent : Type := mkEvent {
  ev_node_name : string;
  ev_amount_exceeded : Z;
  ev_write_threshold : Z
}.

(** ** Legacy threshold: state kept in the node itself *)

Definition bdrv_write_threshold_get_legacy (bs : BlockDriverState) : Z :=
  write_threshold_offset bs.

Definition bdrv_write_threshold_is_set_legacy (bs : BlockDriverState) : bool :=
  write_threshold_offset bs >? 0.

(** Modelled from the spec: [notifier_with_return_remove] of qemu/notify.h
    is not part of these sources; the hook is an observer registration
    that is added and removed, so removal takes the notifier out of the
    list it is linked in. *)
Definition notifier_with_return_remove (n : Notifier) (l : list Notifier)
  : list Notifier :=
  remove Notifier_eq_dec n l.

(** Modelled from the spec: [bdrv_add_before_write_notifier] of the block
    layer is not part of these sources; it links the notifier into the
    node's pre-write hook list. *)
Definition bdrv_add_before_write_notifier (bs : BlockDriverState) (n : Notifier)
  : BlockDriverState :=
  set_before_write_notifiers (n :: before_write_notifiers bs) bs.

Definition write_threshold_disable_legacy (bs : BlockDriverState)
  : BlockDriverState :=
  if bdrv_write_threshold_is_set_legacy bs then
    set_write_threshold_offset 0
      (set_before_write_notifiers
         (notifier_with_return_remove WriteThresholdNotifier
            (before_write_notifiers bs)) bs)
  else bs.

Definition write_threshold_register_notifier (bs : BlockDriverState)
  : BlockDriverState :=
  bdrv_add_before_write_notifier bs WriteThresholdNotifier.

(** The parameter is an [int64_t]; the store converts it to [uint64_t]. *)
Definition write_threshold_update_legacy (bs : BlockDriverState)
  (threshold_bytes : Z) : BlockDriverState :=
  set_write_threshold_offset (u64 threshold_bytes) bs.

(** [threshold_bytes] is a [uint64_t]; each call of
    [write_threshold_update_legacy] converts it to [int64_t]. *)
Definition bdrv_write_threshold_set_legacy (bs : BlockDriverState)
  (threshold_bytes : Z) : BlockDriverState :=
  if bdrv_write_threshold_is_set_legacy bs then
    if threshold_bytes >? 0 then
      write_threshold_update_legacy bs (s64 threshold_bytes)
    else
      write_threshold_disable_legacy bs
  else
    if threshold_bytes >? 0 then
      write_threshold_update_legacy (write_threshold_register_notifier bs)
        (s64 threshold_bytes)
    else bs.

(** ** Filter threshold: state kept in the driver's instance storage *)

Definition bdrv_write_threshold_is_set (bs : BlockDriverState) : bool :=
  opaque bs >? 0.

Definition bdrv_write_threshold_disable (bs : BlockDriverState)
  : BlockDriverState :=
  if bdrv_write_threshold_is_set bs then set_opaque 0 bs else bs.

(** Modelled from the spec: [child_bs] is declared outside these sources;
    the filter wraps exactly one child node, and [child_bs] yields that
    node ([NULL] when there is none). *)
Definition child_bs (bs : BlockDriverState) : option BlockDriverState :=
  option_map c_bs (file bs).

(** ** The world a request runs in *)

(** The block layer below the filter.  Its entry points are declared
    outside these sources and enter as an interface: every call takes the
    state behind the child, of some type [Backend], to a return value and
    a new state.  Arguments are as in the C prototypes. *)
Class BlockLayer (Backend : Type) : Type := {
  bdrv_co_preadv :
    BdrvChild -> Z -> Z -> QEMUIOVector -> Z -> Backend -> Z * Backend;
  bdrv_co_pwritev :
    BdrvChild -> Z -> Z -> QEMUIOVector -> Z -> Backend -> Z * Backend;
  bdrv_co_pwrite_zeroes :
    BdrvChild -> Z -> Z -> Z -> Backend -> Z * Backend;
  bdrv_co_pdiscard :
    BlockDriverState -> Z -> Z -> Backend -> Z * Backend;
  bdrv_co_flush :
    BlockDriverState -> Backend -> Z * Backend;
  bdrv_getlength :
    BlockDriverState -> Backend -> Z * Backend
}.

(** The node a driver function is called on, the events sent to the
    monitor so far (oldest first), and the state behind the child. *)
Record World (Backend : Type) : Type := mkWorld {
  bds : BlockDriverState;
  monitor : list BlockWriteThresholdEvent;
  backend : Backend
}.

Arguments mkWorld {Backend} _ _ _.
Arguments bds {Backend} _.
Arguments monitor {Backend} _.
Arguments backend {Backend} _.

(** State over [World], with [None] for a null pointer dereference. *)
Definition Blk (Backend A : Type) : Type :=
  World Backend -> option (A * World Backend).

Definition ret {Backend A : Type} (a : A) : Blk Backend A :=
  fun w => Some (a, w).

Definition bind {Backend A B : Type} (m : Blk Backend A)
  (k : A -> Blk Backend B) : Blk Backend B :=
  fun w => match m w with
           | Some (a, w') => k a w'
           | None => None
           end.

Declare Scope blk_scope.
Delimit Scope blk_scope with blk.

Notation "x <- m ;; k" := (bind m (fun x => k))
  (at level 61, m at next level, right associativity) : blk_scope.
Notation "m ;; k" := (bind m (fun _ => k))
  (at level 61, right associativity) : blk_scope.

Local Open Scope blk_scope.

Section Driver.

Context {Backend : Type}.

Definition get_bds : Blk Backend BlockDriverState :=
  fun w => Some (bds w, w).

Definition modify_bds (f : BlockDriverState -> BlockDriverState)
  : Blk Backend unit :=
  fun w => Some (tt, mkWorld (f (bds w)) (monitor w) (backend w)).

(** Reading through a pointer that may be [NULL]. *)
Definition deref {A : Type} (p : option A) : Blk Backend A :=
  fun w => match p with
           | Some a => Some (a, w)
           | None => None
           end.

(** A call into the block layer below. *)
Definition call (f : Backend -> Z * Backend) : Blk Backend Z :=
  fun w => let (r, b) := f (backend w) in
           Some (r, mkWorld (bds w) (monitor w) b).

(** Modelled from the spec: [qapi_event_send_block_write_threshold] is
    generated code outside these sources; it hands one event, with the
    node identity, the amount and the threshold, to the monitor and
    does not wait for anything. *)
Definition qapi_event_send_block_write_threshold
  (name : string) (amount_exceeded write_threshold : Z) : Blk Backend unit :=
  fun w => Some (tt, mkWorld (bds w)
                       (monitor w ++ [mkEvent name amount_exceeded write_threshold])
                       (backend w)).

(** *** Legacy path *)

(** The notifier callback.  [req->bs] is the node of the world; the
    request's fields are converted to [uint64_t] locals. *)
Definition before_write_notify (req : BdrvTrackedRequest) : Blk Backend Z :=
  bs <- get_bds ;;
  let threshold := bdrv_write_threshold_get_legacy bs in
  let offset := u64 (req_offset req) in
  let bytes := u64 (req_bytes req) in
  let amount := bdrv_write_threshold_exceeded threshold offset bytes in
  (if amount >? 0 then
     qapi_event_send_block_write_threshold
       (node_name bs) amount (write_threshold_offset bs) ;;
     modify_bds write_threshold_disable_legacy
   else ret tt) ;;
  ret 0.

(** *** Filter path *)

Definition bdrv_write_threshold_check_amount (offset bytes : Z)
  : Blk Backend unit :=
  bs <- get_bds ;;
  let threshold := opaque bs in
  let amount := bdrv_write_threshold_exceeded threshold offset bytes in
  if amount >? 0 then
    child <- deref (child_bs bs) ;;
    qapi_event_send_block_write_threshold (node_name child) amount threshold ;;
    modify_bds bdrv_write_threshold_disable
  else ret tt.

Context `{BlockLayer Backend}.

(** The entry points hand [bs->file], or [bs->file->bs], to the block
    layer, which reads through it.  A [NULL] [bs->file] is a null pointer
    dereference either way, and the model reports it at the entry point. *)

Definition write_threshold_co_preadv (offset bytes : Z)
  (qiov : QEMUIOVector) (flags : Z) : Blk Backend Z :=
  bs <- get_bds ;;
  child <- deref (file bs) ;;
  call (bdrv_co_preadv child offset bytes qiov flags).

Definition write_threshold_co_pwritev (offset bytes : Z)
  (qiov : QEMUIOVector) (flags : Z) : Blk Backend Z :=
  bdrv_write_threshold_check_amount offset bytes ;;
  bs <- get_bds ;;
  child <- deref (file bs) ;;
  call (bdrv_co_pwritev child offset bytes qiov flags).

(** [offset] is an [int64_t] and [bytes] an [int]; the check takes both
    as [uint64_t], the forwarded call takes them as they came. *)
Definition write_threshold_co_pwrite_zeroes (offset bytes flags : Z)
  : Blk Backend Z :=
  bdrv_write_threshold_check_amount (u64 offset) (u64 bytes) ;;
  bs <- get_bds ;;
  child <- deref (file bs) ;;
  call (bdrv_co_pwrite_zeroes child offset bytes flags).

Definition write_threshold_co_pdiscard (offset bytes : Z) : Blk Backend Z :=
  bdrv_write_threshold_check_amount (u64 offset) (u64 bytes) ;;
  bs <- get_bds ;;
  child <- deref (file bs) ;;
  call (bdrv_co_pdiscard (c_bs child) offset bytes).

Definition write_threshold_getlength : Blk Backend Z :=
  bs <- get_bds ;;
  child <- deref (file bs) ;;
  call (bdrv_getlength (c_bs child)).

Definition write_threshold_co_flush : Blk Backend Z :=
  bs <- get_bds ;;
  child <- deref (file bs) ;;
  call (bdrv_co_flush (c_bs child)).

(** The driver's [bdrv_close] callback has an empty body. *)
Definition write_threshold_close : Blk Backend unit :=
  ret tt.

(** Modelled from the spec: the block layer's node close is not part of
    these sources.  Closing a node runs the driver's [bdrv_close]
    callback, which for the filter is [write_threshold_close], and
    releases the node's child reference. *)
Definition bdrv_close : Blk Backend unit :=
  write_threshold_close ;;
  modify_bds (set_file None).

(** *** Runs of checks with no [set] in between *)

Fixpoint before_write_notify_all (reqs : list BdrvTrackedRequest)
  : Blk Backend unit :=
  match reqs with
  | [] => ret tt
  | req :: rest => before_write_notify req ;; before_write_notify_all rest
  end.

Fixpoint check_amount_all (reqs : list (Z * Z)) : Blk Backend unit :=
  match reqs with
  | [] => ret tt
  | (offset, bytes) :: rest =>
      bdrv_write_threshold_check_amount offset bytes ;; check_amount_all rest
  end.

End Driver.

(** A concrete block layer to run the driver on: the state behind the
    child is the highest byte written so far; reads, zero writes, discards
    and flushes succeed, and the length query reports that size. *)
Module SizeOnly.

Definition grow (offset bytes : Z) (size : Z) : Z * Z :=
  (0, Z.max size (offset + bytes)).

#[global] Instance layer : BlockLayer Z := {|
  bdrv_co_preadv := fun _ _ _ _ _ size => (0, size);
  bdrv_co_pwritev := fun _ offset bytes _ _ => grow offset bytes;
  bdrv_co_pwrite_zeroes := fun _ offset bytes _ => grow offset bytes;
  bdrv_co_pdiscard := fun _ _ _ size => (0, size);
  bdrv_co_flush := fun _ size => (0, size);
  bdrv_getlength := fun _ size => (size, size)
|}.

Definition MiB : Z := 1024 * 1024.

(** A node as [memset (&bs, 0, sizeof (bs))] leaves it. *)
Definition zeroed : BlockDriverState := mkBDS EmptyString 0 [] 0 None.

(** A plain node named [disk0], zeroed but for the name. *)
Definition disk0 : BlockDriverState := mkBDS "disk0" 0 [] 0 None.

(** A filter node on top of [disk0] with the given threshold. *)
Definition filter_on_disk0 (threshold : Z) : BlockDriverState :=
  mkBDS "wt0" 0 [] threshold (Some (mkChild disk0)).

(** [disk0] with the legacy threshold set to 4 MiB, and a filter over
    [disk0] with the same threshold; nothing sent yet, nothing written. *)
Definition legacy_world : World Z :=
  mkWorld (bdrv_write_threshold_set_legacy disk0 (4 * MiB)) [] 0.

Definition filter_world : World Z :=
  mkWorld (filter_on_disk0 (4 * MiB)) [] 0.

(** A request below the mark and one that straddles it by 1024 bytes. *)
Definition below : BdrvTrackedRequest := mkReq 1024 1024.

Definition straddling : BdrvTrackedRequest := mkReq (4 * MiB - 1024) 2048.

End SizeOnly.

(** ** Vocabulary for the statements *)

(** Going from [w] to [w'] sent exactly the events [evs] to the monitor. *)
Definition emitted {Backend : Type} (w w' : World Backend)
  (evs : list BlockWriteThresholdEvent) : Prop :=
  monitor w' = monitor w ++ evs.

(** The world after a call into the block layer returned [rb]. *)
Definition returned {Backend : Type} (w : World Backend) (rb : Z * Backend)
  : option (Z * World Backend) :=
  Some (fst rb, mkWorld (bds w) (monitor w) (snd rb)).

(** The legacy hook is linked exactly while the threshold is armed, and
    never twice. *)
Definition hook_consistent (bs : BlockDriverState) : Prop :=
  count_occ Notifier_eq_dec (before_write_notifiers bs) WriteThresholdNotifier
  = if bdrv_write_threshold_is_set_legacy bs then 1%nat else 0%nat.

(** ** The rest of the filter driver *)

(** The parameter is an [int64_t]; the store converts it to [uint64_t]. *)
Definition bdrv_write_threshold_update (bs : BlockDriverState)
  (threshold_bytes : Z) : BlockDriverState :=
  set_opaque (u64 threshold_bytes) bs.

(** [EINVAL] of the host's errno.h. *)
Definition EINVAL : Z := 22.

(** The two [BlockDriverState] fields that only [write_threshold_open]
    writes; they travel beside the node. *)
Record BdsFlags : Type := mkFlags {
  supported_write_flags : Z;
  supported_zero_flags : Z
}.

(** What the calls [write_threshold_open] makes outside these sources
    come back with: the child [bdrv_open_child] opened, with the child
    node's flags, or [NULL] and the error it left in [errp]; the error
    [qemu_opts_absorb_qdict] left in [local_err], if any; and the number
    given for the [write-threshold] option, if any. *)
Record OpenEnv : Type := mkOpenEnv {
  env_child : option (BdrvChild * BdsFlags);
  env_child_err : string;
  env_absorb_err : option string;
  env_number : option Z
}.

(** Modelled from the spec: [qemu_opt_get_number] is declared outside
    these sources; an absent option yields the default. *)
Definition qemu_opt_get_number (env : OpenEnv) (defval : Z) : Z :=
  match env_number env with
  | Some n => u64 n
  | None => defval
  end.

(** What [write_threshold_open] leaves: its return value, the node, the
    node's flags and [*errp]. *)
Record OpenResult : Type := mkOpenResult {
  open_ret : Z;
  open_bs : BlockDriverState;
  open_flags : BdsFlags;
  open_errp : option string
}.

Definition write_threshold_open (env : OpenEnv) (bs : BlockDriverState)
  (fl : BdsFlags) : OpenResult :=
  match env_child env with
  | None =>
      mkOpenResult (- EINVAL) (set_file None bs) fl (Some (env_child_err env))
  | Some (child, child_fl) =>
      let bs := set_file (Some child) bs in
      let fl := mkFlags (supported_write_flags child_fl)
                        (supported_zero_flags child_fl) in
      match env_absorb_err env with
      | Some local_err => mkOpenResult (- EINVAL) bs fl (Some local_err)
      | None =>
          let threshold := qemu_opt_get_number env 0 in
          mkOpenResult 0 (bdrv_write_threshold_update bs (s64 threshold))
                       fl None
      end
  end.

(** The block-layer constants [write_threshold_co_get_block_status] uses;
    they are defined outside these sources. *)
Record BlockConsts : Type := mkBlockConsts {
  BDRV_BLOCK_RAW : Z;
  BDRV_BLOCK_OFFSET_VALID : Z;
  BDRV_SECTOR_BITS : Z
}.

(** Returns the [int64_t] status, [*pnum] and [*file]; [None] is the
    failed [assert(child_bs(bs))].  The shift is on an [int64_t]. *)
Definition write_threshold_co_get_block_status (k : BlockConsts)
  (bs : BlockDriverState) (sector_num nb_sectors : Z)
  : option (Z * Z * BlockDriverState) :=
  match child_bs bs with
  | None => None
  | Some child =>
      Some (Z.lor (Z.lor (BDRV_BLOCK_RAW k) (BDRV_BLOCK_OFFSET_VALID k))
                  (s64 (Z.shiftl sector_num (BDRV_SECTOR_BITS k))),
            nb_sectors, child)
  end.

(** Requests as the block layer hands them to the entry points of the
    [write_threshold] driver table. *)
Inductive FilterOp : Type :=
| OpPreadv (offset bytes : Z) (qiov : QEMUIOVector) (flags : Z)
| OpPwritev (offset bytes : Z) (qiov : QEMUIOVector) (flags : Z)
| OpPwriteZeroes (offset bytes flags : Z)
| OpPdiscard (offset bytes : Z)
| OpFlush
| OpGetlength.

Section Dispatch.

Context {Backend : Type} `{BlockLayer Backend}.

(** The [write_threshold] driver table: which entry point serves which
    request. *)
Definition write_threshold (op : FilterOp) : Blk Backend Z :=
  match op with
  | OpPreadv offset bytes qiov flags =>
      write_threshold_co_preadv offset bytes qiov flags
  | OpPwritev offset bytes qiov flags =>
      write_threshold_co_pwritev offset bytes qiov flags
  | OpPwriteZeroes offset bytes flags =>
      write_threshold_co_pwrite_zeroes offset bytes flags
  | OpPdiscard offset bytes => write_threshold_co_pdiscard offset bytes
  | OpFlush => write_threshold_co_flush
  | OpGetlength => write_threshold_getlength
  end.

(** A run of requests through the filter, with their return values. *)
Fixpoint write_threshold_all (ops : list FilterOp) : Blk Backend (list Z) :=
  match ops with
  | [] => ret []
  | op :: rest =>
      r <- write_threshold op ;;
      rs <- write_threshold_all rest ;;
      ret (r :: rs)
  end.

(** The same request made on the child directly, with no filter. *)
Definition direct (c : BdrvChild) (op : FilterOp) (b : Backend) : Z * Backend :=
  match op with
  | OpPreadv offset bytes qiov flags => bdrv_co_preadv c offset bytes qiov flags b
  | OpPwritev offset bytes qiov flags => bdrv_co_pwritev c offset bytes qiov flags b
  | OpPwriteZeroes offset bytes flags => bdrv_co_pwrite_zeroes c offset bytes flags b
  | OpPdiscard offset bytes => bdrv_co_pdiscard (c_bs c) offset bytes b
  | OpFlush => bdrv_co_flush (c_bs c) b
  | OpGetlength => bdrv_getlength (c_bs c) b
  end.

Fixpoint direct_all (c : BdrvChild) (ops : list FilterOp) (b : Backend)
  : list Z * Backend :=
  match ops with
  | [] => ([], b)
  | op :: rest =>
      let (r, b1) := direct c op b in
      let (rs, b2) := direct_all c rest b1 in
      (r :: rs, b2)
  end.

End Dispatch.

(** ** The QMP command and runs of the legacy path *)

(** The nodes of the block graph, in the order the lookup visits them.  A
    [BlockDriverState *] into the graph is a position in this list. *)
Definition Graph : Type := list BlockDriverState.

(** Modelled from the spec: [bdrv_find_node] is declared outside these
    sources; it looks a node up by name and yields [NULL] for an unknown
    name.  The result is the pointer together with the node it points to. *)
Fixpoint bdrv_find_node (name : string) (g : Graph)
  : option (nat * BlockDriverState) :=
  match g with
  | [] => None
  | bs :: rest =>
      if String.eqb name (node_name bs) then Some (0%nat, bs)
      else match bdrv_find_node name rest with
           | Some (i, found) => Some (S i, found)
           | None => None
           end
  end.

(** Writing a node back through a pointer into the graph. *)
Fixpoint graph_store (i : nat) (bs : BlockDriverState) (g : Graph) : Graph :=
  match g, i with
  | [], _ => []
  | _ :: rest, O => bs :: rest
  | x :: rest, S j => x :: graph_store j bs rest
  end.

Definition AioContext : Type := nat.

(** The graph, and the [AioContext]s currently acquired, innermost first. *)
Record QmpWorld : Type := mkQmpWorld {
  graph : Graph;
  aio_held : list AioContext
}.

(** Modelled from the spec: acquiring and releasing an execution context
    are declared outside these sources; acquisitions nest, and a release
    gives up the innermost acquisition of that context. *)
Definition aio_context_acquire (ctx : AioContext) (w : QmpWorld) : QmpWorld :=
  mkQmpWorld (graph w) (ctx :: aio_held w).

Fixpoint release_one (ctx : AioContext) (held : list AioContext)
  : list AioContext :=
  match held with
  | [] => []
  | c :: rest => if Nat.eqb c ctx then rest else c :: release_one ctx rest
  end.

Definition aio_context_release (ctx : AioContext) (w : QmpWorld) : QmpWorld :=
  mkQmpWorld (graph w) (release_one ctx (aio_held w)).

(** [bdrv_get_aio_context] is declared outside these sources and enters
    as a parameter.  The result is [*errp] and the world left behind. *)
Definition qmp_block_set_write_threshold
  (bdrv_get_aio_context : BlockDriverState -> AioContext)
  (node_name : string) (threshold_bytes : Z) (w : QmpWorld)
  : option string * QmpWorld :=
  match bdrv_find_node node_name (graph w) with
  | None => (Some ("Device '" ++ node_name ++ "' not found")%string, w)
  | Some (p, bs) =>
      let aio_context := bdrv_get_aio_context bs in
      let w := aio_context_acquire aio_context w in
      let w := mkQmpWorld
                 (graph_store p (bdrv_write_threshold_set_legacy bs threshold_bytes)
                    (graph w))
                 (aio_held w) in
      let w := aio_context_release aio_context w in
      (None, w)
  end.

(** What happens to a node on the legacy path: the threshold is set, or a
    write is about to proceed and the callback runs. *)
Inductive LegacyOp : Type :=
| OpSetThreshold (threshold_bytes : Z)
| OpBeforeWrite (req : BdrvTrackedRequest).

Section LegacyRuns.

Context {Backend : Type}.

Definition legacy_op (op : LegacyOp) : Blk Backend unit :=
  match op with
  | OpSetThreshold threshold_bytes =>
      modify_bds (fun bs => bdrv_write_threshold_set_legacy bs threshold_bytes)
  | OpBeforeWrite req => before_write_notify req ;; ret tt
  end.

Fixpoint legacy_all (ops : list LegacyOp) : Blk Backend unit :=
  match ops with
  | [] => ret tt
  | op :: rest => legacy_op op ;; legacy_all rest
  end.

End LegacyRuns.

(** How many of the operations arm the threshold. *)
Fixpoint armings (ops : list LegacyOp) : nat :=
  match ops with
  | [] => 0%nat
  | OpSetThreshold threshold_bytes :: rest =>
      ((if threshold_bytes >? 0 then 1 else 0) + armings rest)%nat
  | OpBeforeWrite _ :: rest => armings rest
  end.

(** The thresholds handed to [set] are [uint64_t] values. *)
Fixpoint ops_in_range (ops : list LegacyOp) : Prop :=
  match ops with
  | [] => True
  | OpSetThreshold threshold_bytes :: rest =>
      is_u64 threshold_bytes /\ ops_in_range rest
  | OpBeforeWrite _ :: rest => ops_in_range rest
  end.

(** An event that names the node [name] and reports a positive amount
    against a positive threshold, both [uint64_t] values. *)
Definition event_ok (name : string) (ev : BlockWriteThresholdEvent) : Prop :=
  ev_node_name ev = name /\
  0 < ev_amount_exceeded ev <= UINT64_MAX /\
  0 < ev_write_threshold ev <= UINT64_MAX.

(** 1 while the legacy threshold is set, 0 otherwise. *)
Definition armed (bs : BlockDriverState) : nat :=
  if bdrv_write_threshold_is_set_legacy bs then 1%nat else 0%nat.

(** The entries of a hook list that belong to other notifiers. *)
Definition other_notifiers (bs : BlockDriverState) : list Notifier :=
  remove Notifier_eq_dec WriteThresholdNotifier (before_write_notifiers bs).

(** Everything a run of legacy operations with [n] armings keeps or
    bounds, from [w] to [w'] with the events [evs]. *)
Definition legacy_step_ok {Backend : Type} (w w' : World Backend)
  (evs : list BlockWriteThresholdEvent) (n : nat) : Prop :=
  emitted w w' evs /\
  is_u64 (write_threshold_offset (bds w')) /\
  node_name (bds w') = node_name (bds w) /\
  other_notifiers (bds w') = other_notifiers (bds w) /\
  (hook_consistent (bds w) -> hook_consistent (bds w')) /\
  backend w' = backend w /\
  Forall (event_ok (node_name (bds w))) evs /\
  (List.length evs + armed (bds w') <= armed (bds w) + n)%nat.

(** 1 while the filter's threshold is set, 0 otherwise. *)
Definition filter_armed (bs : BlockDriverState) : nat :=
  if bdrv_write_threshold_is_set bs then 1%nat else 0%nat.

(** Everything a run of requests through a filter over the child [c]
    keeps or bounds, from [w] to [w'] with the events [evs]. *)
Definition filter_step_ok {Backend : Type} (c : BdrvChild)
  (w w' : World Backend) (evs : list BlockWriteThresholdEvent) : Prop :=
  emitted w w' evs /\
  file (bds w') = Some c /\
  is_u64 (opaque (bds w')) /\
  (bds w' = bds w \/ bds w' = set_opaque 0 (bds w)) /\
  Forall (event_ok (node_name (c_bs c))) evs /\
  (List.length evs + filter_armed (bds w') <= filter_armed (bds w))%nat.

(** The event a write up to [offset + bytes] sends against the threshold
    [threshold], if any. *)
Definition crossing (name : string) (threshold offset bytes : Z)
  : list BlockWriteThresholdEvent :=
  if (0 <? threshold) && (threshold <? offset + bytes)
  then [mkEvent name ((offset + bytes) - threshold) threshold]
  else [].

(** Further inputs to run the code on. *)
Module Samples.

Definition consts : BlockConsts := mkBlockConsts 8 4 9.

(** [disk0] with another notifier already on its hook list. *)
Definition hooked_disk0 : BlockDriverState :=
  mkBDS "disk0" 0 [OtherNotifier 7] 0 None.

Definition disk1 : BlockDriverState := mkBDS "disk1" 0 [] 0 None.

Definition two_disks : QmpWorld := mkQmpWorld [hooked_disk0; disk1] [3%nat].

Definition ctx_of (bs : BlockDriverState) : AioContext :=
  if String.eqb (node_name bs) "disk1" then 1%nat else 0%nat.

(** Opening over [disk0] with the threshold option at 4 MiB, and with no
    option at all. *)
Definition child_flags : BdsFlags := mkFlags 1 2.

Definition env_4M : OpenEnv :=
  mkOpenEnv (Some (mkChild SizeOnly.disk0, child_flags)) EmptyString
            None (Some (4 * SizeOnly.MiB)).

Definition env_default : OpenEnv :=
  mkOpenEnv (Some (mkChild SizeOnly.disk0, child_flags)) EmptyString None None.

Definition env_bad_option : OpenEnv :=
  mkOpenEnv (Some (mkChild SizeOnly.disk0, child_flags)) EmptyString
            (Some "Parameter 'write-threshold' expects a number"%string) None.

(** A filter node before [write_threshold_open] ran, its instance storage
    holding a stale value. *)
Definition unopened : BlockDriverState := mkBDS "wt0" 0 [] 77 None.

Definition no_flags : BdsFlags := mkFlags 0 0.

Definition traffic : list FilterOp :=
  [OpPwritev 0 4096 [] 0; OpPreadv 0 512 [] 0;
   OpPwriteZeroes (4 * SizeOnly.MiB - 1024) 2048 0; OpGetlength;
   OpPdiscard (5 * SizeOnly.MiB) 4096; OpFlush].

Definition cycle : list LegacyOp :=
  [OpSetThreshold (4 * SizeOnly.MiB); OpBeforeWrite SizeOnly.straddling;
   OpBeforeWrite SizeOnly.straddling; OpSetThreshold 1024;
   OpBeforeWrite SizeOnly.below; OpSetThreshold 0;
   OpBeforeWrite SizeOnly.straddling].

End Samples.

(** * Properties *)

(** ** Facts about the integer conversions *)

Module IntFacts.

Lemma modulus_eq : modulus = 18446744073709551616.
Proof. reflexivity. Qed.

Lemma u64_range (z : Z) : is_u64 (u64 z).
Proof.
  unfold is_u64, u64. rewrite modulus_eq.
  pose proof (Z.mod_pos_bound z 18446744073709551616 ltac:(lia)).
  unfold UINT64_MAX. lia.
Qed.

Lemma u64_id (z : Z) : is_u64 z -> u64 z = z.
Proof.
  unfold is_u64, u64, UINT64_MAX. rewrite modulus_eq. intros Hz.
  apply Z.mod_small. lia.
Qed.

(** A [uint64_t] passed through an [int64_t] parameter and stored back
    into a [uint64_t] object is the value it was. *)
Lemma u64_s64 (z : Z) : u64 (s64 z) = u64 z.
Proof.
  unfold u64, s64. rewrite Zminus_mod_idemp_l.
  f_equal. lia.
Qed.

Lemma add64_exact (a b : Z) : is_u64 (a + b) -> add64 a b = a + b.
Proof. apply u64_id. Qed.

Lemma sub64_exact (a b : Z) : is_u64 (a - b) -> sub64 a b = a - b.
Proof. apply u64_id. Qed.

End IntFacts.

Import IntFacts.

(** Range side conditions on literals and on linear combinations. *)
Ltac range :=
  unfold request_in_range, is_u64, UINT64_MAX in *; cbn in *; lia.

(** ** The exceedance computation *)

Lemma exceeded_is_exact (threshold offset bytes : Z) :
  is_u64 threshold -> request_in_range offset bytes ->
  bdrv_write_threshold_exceeded threshold offset bytes
  = exceeded_exact threshold offset bytes.
Proof.
  unfold bdrv_write_threshold_exceeded, exceeded_exact.
  intros Ht Hr.
  destruct (threshold =? 0) eqn:E0; cbn [negb]; [reflexivity|].
  destruct (offset >? threshold) eqn:E1.
  - apply Z.gtb_lt in E1.
    rewrite (sub64_exact offset threshold) by range.
    apply add64_exact. range.
  - rewrite (add64_exact offset bytes) by range.
    destruct (offset + bytes >? threshold) eqn:E2; [|reflexivity].
    apply Z.gtb_lt in E2.
    apply sub64_exact. range.
Qed.

Lemma exceeded_zero_threshold (offset bytes : Z) :
  bdrv_write_threshold_exceeded 0 offset bytes = 0.
Proof. reflexivity. Qed.

(** A positive amount is only ever computed against a nonzero threshold. *)
Lemma exceeded_pos_armed (threshold offset bytes : Z) :
  0 < bdrv_write_threshold_exceeded threshold offset bytes -> threshold <> 0.
Proof.
  intros Hpos E. subst threshold. rewrite exceeded_zero_threshold in Hpos. lia.
Qed.

Lemma exceeded_exact_cases (threshold offset bytes : Z) :
  0 <= threshold ->
  exceeded_exact threshold offset bytes =
    if threshold =? 0 then 0
    else if offset + bytes >? threshold then (offset + bytes) - threshold
    else if offset >? threshold then (offset - threshold) + bytes
    else 0.
Proof.
  intros Ht. unfold exceeded_exact.
  destruct (threshold =? 0); cbn [negb]; [reflexivity|].
  destruct (offset >? threshold) eqn:E1;
    destruct (offset + bytes >? threshold) eqn:E2; try reflexivity; lia.
Qed.

(** C1: for unsigned 64-bit threshold, offset and bytes whose sum
    [offset + bytes] does not overflow, [bdrv_write_threshold_exceeded]
    returns 0 for a zero threshold; [(offset - threshold) + bytes] when the
    threshold is positive and the offset lies beyond it;
    [(offset + bytes) - threshold] when the threshold is positive, the
    offset is at or below it and the end of the request is beyond it; and
    0 otherwise.  A request that ends exactly at the mark returns 0. *)
Theorem exceeded_by_cases (threshold offset bytes : Z) :
  is_u64 threshold -> request_in_range offset bytes ->
  let amount := bdrv_write_threshold_exceeded threshold offset bytes in
  (threshold = 0 -> amount = 0) /\
  (threshold > 0 -> offset > threshold ->
   amount = (offset - threshold) + bytes) /\
  (threshold > 0 -> offset <= threshold -> offset + bytes > threshold ->
   amount = (offset + bytes) - threshold) /\
  (threshold > 0 -> offset <= threshold -> offset + bytes <= threshold ->
   amount = 0) /\
  (offset + bytes = threshold -> amount = 0).
Proof.
  intros Ht Hr amount. subst amount.
  rewrite exceeded_is_exact by assumption.
  unfold exceeded_exact.
  destruct (Z.eqb_spec threshold 0) as [E0|E0]; cbn [negb].
  - repeat split; intros; solve [reflexivity | lia].
  - destruct (offset >? threshold) eqn:E1;
      destruct (offset + bytes >? threshold) eqn:E2;
      repeat split; intros; solve [reflexivity | lia | range].
Qed.

Lemma exceeded_by_cases_witness :
  is_u64 (4 * 1024 * 1024) /\
  request_in_range (4 * 1024 * 1024 - 1024) (2 * 1024) /\
  bdrv_write_threshold_exceeded
    (4 * 1024 * 1024) (4 * 1024 * 1024 - 1024) (2 * 1024) = 1024.
Proof.
  assert (Ht : is_u64 (4 * 1024 * 1024)) by range.
  assert (Hr : request_in_range (4 * 1024 * 1024 - 1024) (2 * 1024)) by range.
  split; [exact Ht|]. split; [exact Hr|].
  destruct (exceeded_by_cases _ _ _ Ht Hr) as (_ & _ & Hstraddle & _).
  rewrite Hstraddle by lia. reflexivity.
Defined.

(** C4: when [offset + bytes] does not exceed [UINT64_MAX], the value
    computed in unsigned 64-bit arithmetic is the exact mathematical one:
    in the branch beyond the mark neither the subtraction nor the addition
    wraps, and in the straddling branch neither the addition nor the
    subtraction does. *)
Theorem exceeded_numerically_exact (threshold offset bytes : Z) :
  is_u64 threshold -> request_in_range offset bytes ->
  bdrv_write_threshold_exceeded threshold offset bytes
  = exceeded_exact threshold offset bytes /\
  (offset > threshold ->
   sub64 offset threshold = offset - threshold /\
   add64 (sub64 offset threshold) bytes = (offset - threshold) + bytes) /\
  add64 offset bytes = offset + bytes /\
  (offset + bytes > threshold ->
   sub64 (add64 offset bytes) threshold = (offset + bytes) - threshold).
Proof.
  intros Ht Hr. split; [apply exceeded_is_exact; assumption|].
  assert (Hadd : add64 offset bytes = offset + bytes)
    by (apply add64_exact; range).
  split; [|split; [exact Hadd|]].
  - intros Hgt.
    assert (Hsub : sub64 offset threshold = offset - threshold)
      by (apply sub64_exact; range).
    split; [exact Hsub|]. rewrite Hsub. apply add64_exact. range.
  - intros Hgt. rewrite Hadd. apply sub64_exact. range.
Qed.

Lemma exceeded_numerically_exact_witness :
  is_u64 1 /\ request_in_range UINT64_MAX 0 /\
  bdrv_write_threshold_exceeded 1 UINT64_MAX 0 = UINT64_MAX - 1.
Proof.
  assert (Ht : is_u64 1) by range.
  assert (Hr : request_in_range UINT64_MAX 0) by range.
  split; [exact Ht|]. split; [exact Hr|].
  destruct (exceeded_numerically_exact _ _ _ Ht Hr) as (Hexact & _).
  rewrite Hexact. reflexivity.
Defined.

(** C8: for a positive threshold and a request whose end does not
    overflow, the two positive branches compute the same value, and the
    function is the reference definition: [(offset + bytes) - threshold]
    when [offset + bytes > threshold] and 0 otherwise, that is
    [max 0 ((offset + bytes) - threshold)].  The result depends on offset
    and bytes only through their sum. *)
Theorem exceeded_refines_reference (threshold offset bytes : Z) :
  is_u64 threshold -> threshold > 0 -> request_in_range offset bytes ->
  add64 (sub64 offset threshold) bytes = sub64 (add64 offset bytes) threshold /\
  bdrv_write_threshold_exceeded threshold offset bytes
  = (if offset + bytes >? threshold then (offset + bytes) - threshold else 0) /\
  bdrv_write_threshold_exceeded threshold offset bytes
  = exceeded_reference threshold offset bytes /\
  (forall offset' bytes',
      request_in_range offset' bytes' ->
      offset' + bytes' = offset + bytes ->
      bdrv_write_threshold_exceeded threshold offset' bytes'
      = bdrv_write_threshold_exceeded threshold offset bytes).
Proof.
  intros Ht Hpos Hr.
  assert (Href : forall o b, request_in_range o b ->
            bdrv_write_threshold_exceeded threshold o b
            = if o + b >? threshold then (o + b) - threshold else 0).
  { intros o b Hob. rewrite exceeded_is_exact by assumption.
    rewrite exceeded_exact_cases by range.
    destruct (Z.eqb_spec threshold 0); [lia|].
    destruct (o + b >? threshold) eqn:E2; [reflexivity|].
    destruct (o >? threshold) eqn:E1; [range|reflexivity]. }
  split; [|split; [apply Href; assumption|split]].
  - unfold add64, sub64, u64.
    rewrite Zplus_mod_idemp_l, Zminus_mod_idemp_l. f_equal. lia.
  - rewrite Href by assumption. unfold exceeded_reference.
    destruct (offset + bytes >? threshold) eqn:E2; lia.
  - intros o b Hob Hsum. rewrite !Href by assumption. rewrite Hsum. reflexivity.
Qed.

Lemma exceeded_refines_reference_witness :
  is_u64 4096 /\ 4096 > 0 /\ request_in_range 5000 100 /\
  bdrv_write_threshold_exceeded 4096 5000 100 = exceeded_reference 4096 5000 100.
Proof.
  assert (Ht : is_u64 4096) by range.
  assert (Hp : 4096 > 0) by lia.
  assert (Hr : request_in_range 5000 100) by range.
  split; [exact Ht|]. split; [exact Hp|]. split; [exact Hr|].
  destruct (exceeded_refines_reference _ _ _ Ht Hp Hr) as (_ & _ & Href & _).
  exact Href.
Defined.

(** ** Legacy threshold state *)

Lemma is_set_legacy_false (bs : BlockDriverState) :
  is_u64 (write_threshold_offset bs) ->
  bdrv_write_threshold_is_set_legacy bs = false ->
  write_threshold_offset bs = 0.
Proof.
  unfold bdrv_write_threshold_is_set_legacy. intros Hr Hf.
  destruct (Z.gtb_spec (write_threshold_offset bs) 0); [discriminate|range].
Qed.

Lemma disable_legacy_get (bs : BlockDriverState) :
  is_u64 (write_threshold_offset bs) ->
  bdrv_write_threshold_get_legacy (write_threshold_disable_legacy bs) = 0.
Proof.
  intros Hr. unfold write_threshold_disable_legacy.
  destruct (bdrv_write_threshold_is_set_legacy bs) eqn:E; [reflexivity|].
  apply is_set_legacy_false; assumption.
Qed.

Lemma update_legacy_get (bs : BlockDriverState) (T : Z) :
  is_u64 T ->
  bdrv_write_threshold_get_legacy (write_threshold_update_legacy bs (s64 T)) = T.
Proof.
  intros Hr. cbn. rewrite u64_s64. apply u64_id. assumption.
Qed.

Lemma set_legacy_get (bs : BlockDriverState) (T : Z) :
  is_u64 (write_threshold_offset bs) -> is_u64 T ->
  bdrv_write_threshold_get_legacy (bdrv_write_threshold_set_legacy bs T) = T.
Proof.
  intros Hbs HT. unfold bdrv_write_threshold_set_legacy.
  destruct (bdrv_write_threshold_is_set_legacy bs) eqn:Eset;
    destruct (Z.gtb_spec T 0) as [Hpos|Hzero].
  - apply update_legacy_get; assumption.
  - rewrite disable_legacy_get by assumption. range.
  - apply update_legacy_get; assumption.
  - unfold bdrv_write_threshold_get_legacy.
    rewrite (is_set_legacy_false bs) by assumption. range.
Qed.

(** The hook stays linked exactly while the threshold is armed. *)
Lemma set_legacy_hook_consistent (bs : BlockDriverState) (T : Z) :
  is_u64 T -> hook_consistent bs ->
  hook_consistent (bdrv_write_threshold_set_legacy bs T).
Proof.
  unfold hook_consistent, bdrv_write_threshold_set_legacy.
  intros HT Hc.
  assert (Hu : 0 < T -> (u64 (s64 T) >? 0) = true).
  { intros Hp. rewrite u64_s64. rewrite u64_id by assumption.
    apply Z.gtb_lt. lia. }
  destruct (bdrv_write_threshold_is_set_legacy bs) eqn:Eset;
    destruct (Z.gtb_spec T 0) as [Hpos|Hzero].
  - unfold bdrv_write_threshold_is_set_legacy; cbn. rewrite Hu by lia. exact Hc.
  - unfold write_threshold_disable_legacy. rewrite Eset.
    unfold bdrv_write_threshold_is_set_legacy, notifier_with_return_remove; cbn.
    apply count_occ_not_In, remove_In.
  - unfold bdrv_write_threshold_is_set_legacy; cbn. rewrite Hu by lia.
    destruct (Notifier_eq_dec WriteThresholdNotifier WriteThresholdNotifier);
      [|congruence].
    rewrite Hc. reflexivity.
  - rewrite Eset. exact Hc.
Qed.

(** A trigger takes the hook out together with the threshold. *)
Lemma disable_legacy_hook_consistent (bs : BlockDriverState) :
  hook_consistent bs -> hook_consistent (write_threshold_disable_legacy bs).
Proof.
  unfold hook_consistent, write_threshold_disable_legacy. intros Hc.
  destruct (bdrv_write_threshold_is_set_legacy bs) eqn:Eset.
  - unfold bdrv_write_threshold_is_set_legacy, notifier_with_return_remove; cbn.
    apply count_occ_not_In, remove_In.
  - rewrite Eset. exact Hc.
Qed.

(** C5: whatever the prior state, after
    [bdrv_write_threshold_set_legacy bs T] the getter returns [T] and the
    threshold is set exactly when [T > 0]; a second set with a positive
    value replaces the first one; and a set to 0 on a node whose threshold
    is not set changes nothing and leaves the getter at 0. *)
Theorem set_legacy_last_write_wins (bs : BlockDriverState) (T : Z) :
  is_u64 (write_threshold_offset bs) -> is_u64 T ->
  let bs' := bdrv_write_threshold_set_legacy bs T in
  bdrv_write_threshold_get_legacy bs' = T /\
  bdrv_write_threshold_is_set_legacy bs' = (T >? 0) /\
  (forall T2, T > 0 -> T2 > 0 -> is_u64 T2 ->
     bdrv_write_threshold_get_legacy (bdrv_write_threshold_set_legacy bs' T2)
     = T2) /\
  (bdrv_write_threshold_is_set_legacy bs = false -> T = 0 ->
     bs' = bs /\ bdrv_write_threshold_get_legacy bs' = 0).
Proof.
  intros Hbs HT bs'.
  assert (Hget : bdrv_write_threshold_get_legacy bs' = T)
    by (apply set_legacy_get; assumption).
  split; [exact Hget|]. split; [|split].
  - unfold bdrv_write_threshold_is_set_legacy.
    unfold bdrv_write_threshold_get_legacy in Hget. rewrite Hget. reflexivity.
  - intros T2 _ _ HT2. apply set_legacy_get; [|assumption].
    unfold bdrv_write_threshold_get_legacy in Hget. rewrite Hget. assumption.
  - intros Hunset Hzero. subst bs' T.
    unfold bdrv_write_threshold_set_legacy. rewrite Hunset. cbn.
    split; [reflexivity|]. apply is_set_legacy_false; assumption.
Qed.

Lemma set_legacy_last_write_wins_witness :
  is_u64 (write_threshold_offset SizeOnly.disk0) /\
  is_u64 (4 * SizeOnly.MiB) /\
  bdrv_write_threshold_get_legacy
    (bdrv_write_threshold_set_legacy
       (bdrv_write_threshold_set_legacy SizeOnly.disk0 (4 * SizeOnly.MiB))
       (15 * SizeOnly.MiB))
  = 15 * SizeOnly.MiB.
Proof.
  assert (Hbs : is_u64 (write_threshold_offset SizeOnly.disk0)) by range.
  assert (HT : is_u64 (4 * SizeOnly.MiB)) by (unfold SizeOnly.MiB; range).
  split; [exact Hbs|]. split; [exact HT|].
  destruct (set_legacy_last_write_wins _ _ Hbs HT) as (_ & _ & Htwice & _).
  apply Htwice; unfold SizeOnly.MiB; range.
Defined.

(** ** The two checks *)

Section CheckFacts.

Context {Backend : Type}.
Implicit Types (w : World Backend) (req : BdrvTrackedRequest).

Lemma world_eta w : mkWorld (bds w) (monitor w) (backend w) = w.
Proof. destruct w; reflexivity. Qed.

Lemma emitted_nil w : emitted w w [].
Proof. unfold emitted. rewrite app_nil_r. reflexivity. Qed.

(** What one run of the legacy callback does, by the sign of the amount. *)
Lemma before_write_notify_eval w req :
  before_write_notify req w =
    let threshold := write_threshold_offset (bds w) in
    let amount :=
      bdrv_write_threshold_exceeded threshold
        (u64 (req_offset req)) (u64 (req_bytes req)) in
    if amount >? 0 then
      Some (0, mkWorld (write_threshold_disable_legacy (bds w))
                 (monitor w ++ [mkEvent (node_name (bds w)) amount threshold])
                 (backend w))
    else Some (0, w).
Proof.
  destruct w as [bs mon be].
  unfold before_write_notify, bind, get_bds, bdrv_write_threshold_get_legacy.
  cbn.
  destruct (bdrv_write_threshold_exceeded _ _ _ >? 0); reflexivity.
Qed.

(** What one run of the filter's check does. *)
Lemma check_amount_eval w offset bytes :
  bdrv_write_threshold_check_amount offset bytes w =
    let threshold := opaque (bds w) in
    let amount := bdrv_write_threshold_exceeded threshold offset bytes in
    if amount >? 0 then
      match file (bds w) with
      | Some c =>
          Some (tt, mkWorld (bdrv_write_threshold_disable (bds w))
                      (monitor w
                         ++ [mkEvent (node_name (c_bs c)) amount threshold])
                      (backend w))
      | None => None
      end
    else Some (tt, w).
Proof.
  destruct w as [bs mon be].
  unfold bdrv_write_threshold_check_amount, bind, get_bds, child_bs. cbn.
  destruct (bdrv_write_threshold_exceeded _ _ _ >? 0); [|reflexivity].
  destruct (file bs); reflexivity.
Qed.

Lemma disable_when_armed (bs : BlockDriverState) :
  0 < opaque bs -> bdrv_write_threshold_disable bs = set_opaque 0 bs.
Proof.
  intros Hpos. unfold bdrv_write_threshold_disable, bdrv_write_threshold_is_set.
  destruct (Z.gtb_spec (opaque bs) 0); [reflexivity|lia].
Qed.

Lemma disable_legacy_when_armed (bs : BlockDriverState) :
  0 < write_threshold_offset bs ->
  write_threshold_offset (write_threshold_disable_legacy bs) = 0.
Proof.
  intros Hpos.
  unfold write_threshold_disable_legacy, bdrv_write_threshold_is_set_legacy.
  destruct (Z.gtb_spec (write_threshold_offset bs) 0); [reflexivity|lia].
Qed.

(** A positive amount on a well-formed threshold means it is armed. *)
Lemma exceeded_pos_threshold_pos (threshold offset bytes : Z) :
  is_u64 threshold ->
  0 < bdrv_write_threshold_exceeded threshold offset bytes -> 0 < threshold.
Proof.
  intros Hr Hpos. apply exceeded_pos_armed in Hpos. range.
Qed.

(** With the threshold at 0 the legacy callback changes nothing. *)
Lemma before_write_notify_disarmed w req :
  write_threshold_offset (bds w) = 0 ->
  before_write_notify req w = Some (0, w).
Proof.
  intros Hz. rewrite before_write_notify_eval. cbn zeta.
  rewrite Hz, exceeded_zero_threshold. reflexivity.
Qed.

Lemma check_amount_disarmed w offset bytes :
  opaque (bds w) = 0 ->
  bdrv_write_threshold_check_amount offset bytes w = Some (tt, w).
Proof.
  intros Hz. rewrite check_amount_eval. cbn zeta.
  rewrite Hz, exceeded_zero_threshold. reflexivity.
Qed.

Lemma before_write_notify_all_disarmed w reqs :
  write_threshold_offset (bds w) = 0 ->
  before_write_notify_all reqs w = Some (tt, w).
Proof.
  intros Hz. induction reqs as [|req rest IH]; [reflexivity|].
  cbn [before_write_notify_all]. unfold bind.
  rewrite before_write_notify_disarmed by assumption. exact IH.
Qed.

Lemma check_amount_all_disarmed w reqs :
  opaque (bds w) = 0 ->
  check_amount_all reqs w = Some (tt, w).
Proof.
  intros Hz. induction reqs as [|[offset bytes] rest IH]; [reflexivity|].
  cbn [check_amount_all]. unfold bind.
  rewrite check_amount_disarmed by assumption. exact IH.
Qed.

(** Any run of legacy callbacks with no [set] in between sends at most
    one event. *)
Lemma before_write_notify_all_at_most_one reqs : forall w,
  is_u64 (write_threshold_offset (bds w)) ->
  exists w' evs,
    before_write_notify_all reqs w = Some (tt, w') /\
    emitted w w' evs /\ (List.length evs <= 1)%nat.
Proof.
  induction reqs as [|req rest IH]; intros w Hr.
  - exists w, []. split; [reflexivity|]. split; [apply emitted_nil|cbn; lia].
  - cbn [before_write_notify_all]. unfold bind.
    rewrite before_write_notify_eval. cbn zeta.
    destruct (Z.gtb_spec
                (bdrv_write_threshold_exceeded (write_threshold_offset (bds w))
                   (u64 (req_offset req)) (u64 (req_bytes req))) 0)
      as [Hpos|Hzero].
    + apply exceeded_pos_threshold_pos in Hpos as Harmed; [|assumption].
      rewrite before_write_notify_all_disarmed
        by (cbn; apply disable_legacy_when_armed; assumption).
      eexists. eexists. split; [reflexivity|].
      split; [reflexivity|cbn; lia].
    + apply IH. assumption.
Qed.

(** The same for the filter's check, on a node that has its child. *)
Lemma check_amount_all_at_most_one reqs : forall w c,
  is_u64 (opaque (bds w)) -> file (bds w) = Some c ->
  exists w' evs,
    check_amount_all reqs w = Some (tt, w') /\
    emitted w w' evs /\ (List.length evs <= 1)%nat.
Proof.
  induction reqs as [|[offset bytes] rest IH]; intros w c Hr Hfile.
  - exists w, []. split; [reflexivity|]. split; [apply emitted_nil|cbn; lia].
  - cbn [check_amount_all]. unfold bind.
    rewrite check_amount_eval. cbn zeta.
    destruct (Z.gtb_spec
                (bdrv_write_threshold_exceeded (opaque (bds w)) offset bytes) 0)
      as [Hpos|Hzero].
    + apply exceeded_pos_threshold_pos in Hpos as Harmed; [|assumption].
      rewrite Hfile.
      rewrite check_amount_all_disarmed
        by (cbn; rewrite disable_when_armed by assumption; reflexivity).
      eexists. eexists. split; [reflexivity|].
      split; [reflexivity|cbn; lia].
    + apply (IH w c); assumption.
Qed.

End CheckFacts.

(** C2: a check whose computed amount is positive, in the legacy callback
    [before_write_notify] as in the filter's
    [bdrv_write_threshold_check_amount], sends exactly one event, with
    that amount and the threshold read by the check, and leaves the
    threshold at 0, so that the same check run again right after sends
    nothing; and any run of checks with no [set] in between sends at most
    one event. *)
Theorem check_triggers_exactly_once {Backend : Type}
  (wl wf : World Backend) (req : BdrvTrackedRequest) (offset bytes : Z)
  (c : BdrvChild) :
  let Tl := bdrv_write_threshold_get_legacy (bds wl) in
  let Tf := opaque (bds wf) in
  let amount_l :=
    bdrv_write_threshold_exceeded Tl (u64 (req_offset req)) (u64 (req_bytes req)) in
  let amount_f := bdrv_write_threshold_exceeded Tf offset bytes in
  is_u64 Tl -> is_u64 Tf -> file (bds wf) = Some c ->
  0 < amount_l -> 0 < amount_f ->
  (exists wl',
      before_write_notify req wl = Some (0, wl') /\
      emitted wl wl' [mkEvent (node_name (bds wl)) amount_l Tl] /\
      bdrv_write_threshold_get_legacy (bds wl') = 0 /\
      before_write_notify req wl' = Some (0, wl')) /\
  (exists wf',
      bdrv_write_threshold_check_amount offset bytes wf = Some (tt, wf') /\
      emitted wf wf' [mkEvent (node_name (c_bs c)) amount_f Tf] /\
      opaque (bds wf') = 0 /\
      bdrv_write_threshold_check_amount offset bytes wf' = Some (tt, wf')) /\
  (forall (w : World Backend) reqs,
      is_u64 (bdrv_write_threshold_get_legacy (bds w)) ->
      exists w' evs,
        before_write_notify_all reqs w = Some (tt, w') /\
        emitted w w' evs /\ (List.length evs <= 1)%nat) /\
  (forall (w : World Backend) c' reqs,
      is_u64 (opaque (bds w)) -> file (bds w) = Some c' ->
      exists w' evs,
        check_amount_all reqs w = Some (tt, w') /\
        emitted w w' evs /\ (List.length evs <= 1)%nat).
Proof.
  intros Tl Tf amount_l amount_f HTl HTf Hfile Hl Hf.
  split; [|split; [|split]].
  - assert (Harmed : 0 < write_threshold_offset (bds wl))
      by (apply (exceeded_pos_threshold_pos _ _ _ HTl Hl)).
    eexists. split.
    + rewrite before_write_notify_eval. cbn zeta.
      change (bdrv_write_threshold_exceeded (write_threshold_offset (bds wl))
                (u64 (req_offset req)) (u64 (req_bytes req))) with amount_l.
      destruct (Z.gtb_spec amount_l 0); [reflexivity|lia].
    + split; [reflexivity|]. split.
      * cbn. apply disable_legacy_when_armed. assumption.
      * apply before_write_notify_disarmed. cbn.
        apply disable_legacy_when_armed. assumption.
  - assert (Harmed : 0 < opaque (bds wf))
      by (apply (exceeded_pos_threshold_pos _ _ _ HTf Hf)).
    eexists. split.
    + rewrite check_amount_eval. cbn zeta.
      change (bdrv_write_threshold_exceeded (opaque (bds wf)) offset bytes)
        with amount_f.
      destruct (Z.gtb_spec amount_f 0); [|lia].
      rewrite Hfile. reflexivity.
    + split; [reflexivity|]. split.
      * cbn. rewrite disable_when_armed by assumption. reflexivity.
      * apply check_amount_disarmed. cbn.
        rewrite disable_when_armed by assumption. reflexivity.
  - intros w reqs Hr. apply before_write_notify_all_at_most_one. assumption.
  - intros w c' reqs Hr Hc. apply (check_amount_all_at_most_one reqs w c'); assumption.
Qed.

Lemma check_triggers_exactly_once_witness :
  is_u64 (bdrv_write_threshold_get_legacy (bds SizeOnly.legacy_world)) /\
  is_u64 (opaque (bds SizeOnly.filter_world)) /\
  file (bds SizeOnly.filter_world) = Some (mkChild SizeOnly.disk0) /\
  0 < bdrv_write_threshold_exceeded
        (bdrv_write_threshold_get_legacy (bds SizeOnly.legacy_world))
        (u64 (req_offset SizeOnly.straddling))
        (u64 (req_bytes SizeOnly.straddling)) /\
  0 < bdrv_write_threshold_exceeded (opaque (bds SizeOnly.filter_world))
        (req_offset SizeOnly.straddling) (req_bytes SizeOnly.straddling) /\
  exists wl',
    before_write_notify SizeOnly.straddling SizeOnly.legacy_world
    = Some (0, wl') /\
    monitor wl' = [mkEvent "disk0" 1024 4194304] /\
    bdrv_write_threshold_get_legacy (bds wl') = 0.
Proof.
  pose (wl := SizeOnly.legacy_world).
  pose (wf := SizeOnly.filter_world).
  pose (req := SizeOnly.straddling).
  assert (H1 : is_u64 (bdrv_write_threshold_get_legacy (bds wl)))
    by (vm_compute; split; discriminate).
  assert (H2 : is_u64 (opaque (bds wf))) by (vm_compute; split; discriminate).
  assert (H3 : file (bds wf) = Some (mkChild SizeOnly.disk0)) by reflexivity.
  assert (H4 : 0 < bdrv_write_threshold_exceeded
                     (bdrv_write_threshold_get_legacy (bds wl))
                     (u64 (req_offset req)) (u64 (req_bytes req)))
    by (vm_compute; reflexivity).
  assert (H5 : 0 < bdrv_write_threshold_exceeded (opaque (bds wf))
                     (req_offset req) (req_bytes req))
    by (vm_compute; reflexivity).
  repeat (split; [assumption|]).
  destruct (check_triggers_exactly_once wl wf req _ _ _ H1 H2 H3 H4 H5)
    as ((wl' & Hrun & Hev & Hget & _) & _).
  exists wl'. split; [exact Hrun|]. split; [exact Hev|exact Hget].
Defined.

(** C10: a check whose computed amount is 0, in either path, sends no
    event and leaves the threshold, and the rest of the world, as it was;
    the legacy callback returns 0, which lets the other notifiers run.
    That is the case in particular while the threshold is 0. *)
Theorem check_without_crossing_is_silent {Backend : Type}
  (wl wf : World Backend) (req : BdrvTrackedRequest) (offset bytes : Z) :
  bdrv_write_threshold_exceeded (bdrv_write_threshold_get_legacy (bds wl))
    (u64 (req_offset req)) (u64 (req_bytes req)) = 0 ->
  bdrv_write_threshold_exceeded (opaque (bds wf)) offset bytes = 0 ->
  before_write_notify req wl = Some (0, wl) /\
  bdrv_write_threshold_check_amount offset bytes wf = Some (tt, wf) /\
  emitted wl wl [] /\ emitted wf wf [] /\
  (forall (w : World Backend) req' offset' bytes',
      bdrv_write_threshold_get_legacy (bds w) = 0 -> opaque (bds w) = 0 ->
      before_write_notify req' w = Some (0, w) /\
      bdrv_write_threshold_check_amount offset' bytes' w = Some (tt, w)).
Proof.
  intros Hl Hf. split; [|split; [|split; [|split]]].
  - rewrite before_write_notify_eval. cbn zeta.
    unfold bdrv_write_threshold_get_legacy in Hl. rewrite Hl. reflexivity.
  - rewrite check_amount_eval. cbn zeta. rewrite Hf. reflexivity.
  - apply emitted_nil.
  - apply emitted_nil.
  - intros w req' offset' bytes' Hzl Hzf. split.
    + apply before_write_notify_disarmed. exact Hzl.
    + apply check_amount_disarmed. exact Hzf.
Qed.

Lemma check_without_crossing_is_silent_witness :
  bdrv_write_threshold_exceeded
    (bdrv_write_threshold_get_legacy (bds SizeOnly.legacy_world))
    (u64 (req_offset SizeOnly.below)) (u64 (req_bytes SizeOnly.below)) = 0 /\
  bdrv_write_threshold_exceeded (opaque (bds SizeOnly.filter_world))
    (req_offset SizeOnly.below) (req_bytes SizeOnly.below) = 0 /\
  before_write_notify SizeOnly.below SizeOnly.legacy_world
  = Some (0, SizeOnly.legacy_world) /\
  bdrv_write_threshold_check_amount
    (req_offset SizeOnly.below) (req_bytes SizeOnly.below) SizeOnly.filter_world
  = Some (tt, SizeOnly.filter_world).
Proof.
  assert (H1 : bdrv_write_threshold_exceeded
                 (bdrv_write_threshold_get_legacy (bds SizeOnly.legacy_world))
                 (u64 (req_offset SizeOnly.below))
                 (u64 (req_bytes SizeOnly.below)) = 0)
    by (vm_compute; reflexivity).
  assert (H2 : bdrv_write_threshold_exceeded
                 (opaque (bds SizeOnly.filter_world))
                 (req_offset SizeOnly.below) (req_bytes SizeOnly.below) = 0)
    by (vm_compute; reflexivity).
  split; [exact H1|]. split; [exact H2|].
  destruct (check_without_crossing_is_silent
              SizeOnly.legacy_world SizeOnly.filter_world SizeOnly.below
              _ _ H1 H2) as (Hl & Hf & _).
  split; [exact Hl|exact Hf].
Defined.

(** C3: the legacy path and the filter path agree.  Take a node with the
    legacy threshold and a filter whose child is that node, both with the
    same threshold, and the same write request: both compute the same
    amount, both send an event exactly when the amount is positive, with
    the same node name, amount and threshold, and both are left with the
    same threshold, which is 0 after a trigger. *)
Theorem legacy_and_filter_agree {Backend : Type}
  (wl wf : World Backend) (req : BdrvTrackedRequest) (c : BdrvChild) :
  let offset := u64 (req_offset req) in
  let bytes := u64 (req_bytes req) in
  let T := bdrv_write_threshold_get_legacy (bds wl) in
  let amount := bdrv_write_threshold_exceeded T offset bytes in
  is_u64 T ->
  opaque (bds wf) = T ->
  file (bds wf) = Some c ->
  node_name (c_bs c) = node_name (bds wl) ->
  exists wl' wf' evs,
    before_write_notify req wl = Some (0, wl') /\
    bdrv_write_threshold_check_amount offset bytes wf = Some (tt, wf') /\
    emitted wl wl' evs /\ emitted wf wf' evs /\
    evs = (if amount >? 0
           then [mkEvent (node_name (bds wl)) amount T] else []) /\
    opaque (bds wf') = bdrv_write_threshold_get_legacy (bds wl') /\
    (0 < amount -> bdrv_write_threshold_get_legacy (bds wl') = 0).
Proof.
  intros offset bytes T amount HT Hsame Hfile Hname.
  rewrite before_write_notify_eval, check_amount_eval. cbn zeta.
  rewrite Hsame, Hfile, Hname.
  change (write_threshold_offset (bds wl)) with T.
  change (bdrv_write_threshold_exceeded T (u64 (req_offset req))
            (u64 (req_bytes req))) with amount.
  change (bdrv_write_threshold_exceeded T offset bytes) with amount.
  destruct (Z.gtb_spec amount 0) as [Hpos|Hzero].
  - assert (Harmed : 0 < T)
      by (apply (exceeded_pos_threshold_pos T offset bytes HT Hpos)).
    do 3 eexists. split; [reflexivity|]. split; [reflexivity|].
    split; [reflexivity|]. split; [reflexivity|]. split; [reflexivity|].
    cbn. rewrite disable_when_armed by lia.
    rewrite disable_legacy_when_armed by exact Harmed.
    split; [reflexivity|]. intros _. reflexivity.
  - exists wl, wf, []. split; [reflexivity|]. split; [reflexivity|].
    split; [apply emitted_nil|]. split; [apply emitted_nil|].
    split; [reflexivity|]. split; [exact Hsame|]. lia.
Qed.

Lemma legacy_and_filter_agree_witness :
  is_u64 (bdrv_write_threshold_get_legacy (bds SizeOnly.legacy_world)) /\
  opaque (bds SizeOnly.filter_world)
  = bdrv_write_threshold_get_legacy (bds SizeOnly.legacy_world) /\
  file (bds SizeOnly.filter_world) = Some (mkChild SizeOnly.disk0) /\
  node_name (c_bs (mkChild SizeOnly.disk0))
  = node_name (bds SizeOnly.legacy_world) /\
  exists wl' wf',
    before_write_notify SizeOnly.straddling SizeOnly.legacy_world
    = Some (0, wl') /\
    bdrv_write_threshold_check_amount
      (u64 (req_offset SizeOnly.straddling))
      (u64 (req_bytes SizeOnly.straddling)) SizeOnly.filter_world
    = Some (tt, wf') /\
    monitor wl' = [mkEvent "disk0" 1024 4194304] /\
    monitor wf' = [mkEvent "disk0" 1024 4194304].
Proof.
  assert (H1 : is_u64 (bdrv_write_threshold_get_legacy
                         (bds SizeOnly.legacy_world)))
    by (vm_compute; split; discriminate).
  assert (H2 : opaque (bds SizeOnly.filter_world)
               = bdrv_write_threshold_get_legacy (bds SizeOnly.legacy_world))
    by reflexivity.
  assert (H3 : file (bds SizeOnly.filter_world) = Some (mkChild SizeOnly.disk0))
    by reflexivity.
  assert (H4 : node_name (c_bs (mkChild SizeOnly.disk0))
               = node_name (bds SizeOnly.legacy_world)) by reflexivity.
  repeat (split; [assumption|]).
  destruct (legacy_and_filter_agree
              SizeOnly.legacy_world SizeOnly.filter_world SizeOnly.straddling
              _ H1 H2 H3 H4)
    as (wl' & wf' & evs & Hl & Hf & Hel & Hef & Hevs & _).
  exists wl', wf'. split; [exact Hl|]. split; [exact Hf|].
  unfold emitted in Hel, Hef. rewrite Hel, Hef, Hevs. split; reflexivity.
Defined.

(** ** The filter driver's entry points *)

Section FilterFacts.

Context {Backend : Type} `{BlockLayer Backend}.
Implicit Types (w : World Backend) (c : BdrvChild).

Lemma call_returned w (f : Backend -> Z * Backend) :
  call f w = returned w (f (backend w)).
Proof. unfold call, returned. destruct (f (backend w)); reflexivity. Qed.

Lemma disable_keeps_file (bs : BlockDriverState) :
  file (bdrv_write_threshold_disable bs) = file bs.
Proof.
  unfold bdrv_write_threshold_disable.
  destruct (bdrv_write_threshold_is_set bs); reflexivity.
Qed.

(** On a node that has its child the check always returns, and it
    touches neither the child link nor what lies behind the child. *)
Lemma check_amount_returns w c offset bytes :
  file (bds w) = Some c ->
  exists w1,
    bdrv_write_threshold_check_amount offset bytes w = Some (tt, w1) /\
    file (bds w1) = Some c /\ backend w1 = backend w.
Proof.
  intros Hfile. rewrite check_amount_eval. cbn zeta. rewrite Hfile.
  destruct (bdrv_write_threshold_exceeded _ _ _ >? 0).
  - eexists. split; [reflexivity|]. cbn.
    rewrite disable_keeps_file. split; [exact Hfile|reflexivity].
  - exists w. split; [reflexivity|]. split; [exact Hfile|reflexivity].
Qed.

(** An entry point that checks and then forwards: the shape shared by
    write, zero write and discard. *)
Lemma check_then_forward w c (o b : Z) (f : BdrvChild -> Backend -> Z * Backend) :
  file (bds w) = Some c ->
  exists w1,
    bdrv_write_threshold_check_amount o b w = Some (tt, w1) /\
    (bdrv_write_threshold_check_amount o b ;;
     bs <- get_bds ;; child <- deref (file bs) ;; call (f child))%blk w
    = returned w1 (f c (backend w)).
Proof.
  intros Hfile.
  destruct (check_amount_returns w c o b Hfile) as (w1 & Hrun & Hfile1 & Hbe).
  exists w1. split; [exact Hrun|].
  unfold bind at 1. rewrite Hrun.
  unfold bind, get_bds, deref. rewrite Hfile1, call_returned, Hbe.
  reflexivity.
Qed.

End FilterFacts.

(** C6: a write, a zero write and a discard arriving at the filter each
    run the threshold check first and then forward the request to the
    child with offset, bytes, payload and flags as they came, and return
    what the child returns.  The check decides nothing about the forwarded
    call: it is made on the same arguments and the same child state
    whether or not the check triggered. *)
Theorem filter_write_checks_then_forwards {Backend : Type}
  `{BlockLayer Backend} (w : World Backend) (c : BdrvChild)
  (offset bytes flags : Z) (qiov : QEMUIOVector) :
  file (bds w) = Some c ->
  (exists w1,
      bdrv_write_threshold_check_amount offset bytes w = Some (tt, w1) /\
      write_threshold_co_pwritev offset bytes qiov flags w
      = returned w1 (bdrv_co_pwritev c offset bytes qiov flags (backend w))) /\
  (exists w1,
      bdrv_write_threshold_check_amount (u64 offset) (u64 bytes) w
      = Some (tt, w1) /\
      write_threshold_co_pwrite_zeroes offset bytes flags w
      = returned w1 (bdrv_co_pwrite_zeroes c offset bytes flags (backend w))) /\
  (exists w1,
      bdrv_write_threshold_check_amount (u64 offset) (u64 bytes) w
      = Some (tt, w1) /\
      write_threshold_co_pdiscard offset bytes w
      = returned w1 (bdrv_co_pdiscard (c_bs c) offset bytes (backend w))).
Proof.
  intros Hfile. split; [|split].
  - apply (check_then_forward w c offset bytes
             (fun child => bdrv_co_pwritev child offset bytes qiov flags) Hfile).
  - apply (check_then_forward w c (u64 offset) (u64 bytes)
             (fun child => bdrv_co_pwrite_zeroes child offset bytes flags) Hfile).
  - apply (check_then_forward w c (u64 offset) (u64 bytes)
             (fun child => bdrv_co_pdiscard (c_bs child) offset bytes) Hfile).
Qed.

Lemma filter_write_checks_then_forwards_witness :
  file (bds SizeOnly.filter_world) = Some (mkChild SizeOnly.disk0) /\
  write_threshold_co_pwritev (4 * SizeOnly.MiB - 1024) 2048 [] 0
    SizeOnly.filter_world
  = Some (0, mkWorld (SizeOnly.filter_on_disk0 0)
               [mkEvent "disk0" 1024 4194304] (4 * SizeOnly.MiB + 1024)).
Proof.
  assert (Hfile : file (bds SizeOnly.filter_world)
                  = Some (mkChild SizeOnly.disk0)) by reflexivity.
  split; [exact Hfile|].
  destruct (filter_write_checks_then_forwards SizeOnly.filter_world
              (mkChild SizeOnly.disk0) (4 * SizeOnly.MiB - 1024) 2048 0 []
              Hfile) as ((w1 & Hcheck & Hwrite) & _).
  rewrite Hwrite.
  assert (Hw1 : Some (tt, w1)
                = Some (tt, mkWorld (SizeOnly.filter_on_disk0 0)
                              [mkEvent "disk0" 1024 4194304] 0))
    by (rewrite <- Hcheck; vm_compute; reflexivity).
  injection Hw1 as Hw1. rewrite Hw1. vm_compute. reflexivity.
Defined.

(** C7: a read, a flush and a length query on the filter go to the child
    with their arguments as they came and return what the child returns;
    they send no event and leave the node, its threshold included, as it
    was, whatever the threshold and the request; the length the filter
    reports is the child's. *)
Theorem filter_read_side_passes_through {Backend : Type}
  `{BlockLayer Backend} (w : World Backend) (c : BdrvChild)
  (offset bytes flags : Z) (qiov : QEMUIOVector) :
  file (bds w) = Some c ->
  write_threshold_co_preadv offset bytes qiov flags w
  = returned w (bdrv_co_preadv c offset bytes qiov flags (backend w)) /\
  write_threshold_co_flush w
  = returned w (bdrv_co_flush (c_bs c) (backend w)) /\
  write_threshold_getlength w
  = returned w (bdrv_getlength (c_bs c) (backend w)) /\
  (forall r w',
      write_threshold_co_preadv offset bytes qiov flags w = Some (r, w') \/
      write_threshold_co_flush w = Some (r, w') \/
      write_threshold_getlength w = Some (r, w') ->
      bds w' = bds w /\ emitted w w' []) /\
  (forall len w',
      write_threshold_getlength w = Some (len, w') ->
      len = fst (bdrv_getlength (c_bs c) (backend w))).
Proof.
  intros Hfile.
  assert (Hread : write_threshold_co_preadv offset bytes qiov flags w
                  = returned w (bdrv_co_preadv c offset bytes qiov flags (backend w))).
  { unfold write_threshold_co_preadv, bind, get_bds, deref.
    rewrite Hfile. apply call_returned. }
  assert (Hflush : write_threshold_co_flush w
                   = returned w (bdrv_co_flush (c_bs c) (backend w))).
  { unfold write_threshold_co_flush, bind, get_bds, deref.
    rewrite Hfile. apply call_returned. }
  assert (Hlen : write_threshold_getlength w
                 = returned w (bdrv_getlength (c_bs c) (backend w))).
  { unfold write_threshold_getlength, bind, get_bds, deref.
    rewrite Hfile. apply call_returned. }
  repeat (split; [assumption|]). split.
  - intros r w' Hrun. rewrite Hread, Hflush, Hlen in Hrun. unfold returned in Hrun.
    destruct Hrun as [E|[E|E]]; injection E as _ E; subst w'; cbn;
      (split; [reflexivity|unfold emitted; cbn; rewrite app_nil_r; reflexivity]).
  - intros len w' Hrun. rewrite Hlen in Hrun. unfold returned in Hrun.
    injection Hrun as E _. symmetry. exact E.
Qed.

Lemma filter_read_side_passes_through_witness :
  file (bds SizeOnly.filter_world) = Some (mkChild SizeOnly.disk0) /\
  write_threshold_co_preadv (5 * SizeOnly.MiB) 4096 [] 0 SizeOnly.filter_world
  = Some (0, SizeOnly.filter_world) /\
  write_threshold_getlength SizeOnly.filter_world
  = Some (0, SizeOnly.filter_world).
Proof.
  assert (Hfile : file (bds SizeOnly.filter_world)
                  = Some (mkChild SizeOnly.disk0)) by reflexivity.
  split; [exact Hfile|].
  destruct (filter_read_side_passes_through SizeOnly.filter_world
              (mkChild SizeOnly.disk0) (5 * SizeOnly.MiB) 4096 0 [] Hfile)
    as (Hread & _ & Hlen & _).
  rewrite Hread, Hlen. split; reflexivity.
Defined.

(** C9: closing the filter node releases the child reference and sends no
    event, armed or not.  The driver's own close callback does nothing at
    all; the release is the block layer's part of closing a node. *)
Theorem close_releases_child_silently {Backend : Type} (w : World Backend) :
  write_threshold_close w = Some (tt, w) /\
  exists w',
    bdrv_close w = Some (tt, w') /\
    file (bds w') = None /\
    emitted w w' [] /\
    opaque (bds w') = opaque (bds w) /\
    backend w' = backend w.
Proof.
  split; [reflexivity|].
  eexists. split; [reflexivity|]. cbn.
  split; [reflexivity|]. split; [|split; reflexivity].
  unfold emitted. cbn. rewrite app_nil_r. reflexivity.
Qed.

(** ** The unit tests of tests/test-write-threshold.c *)

Module UnitTests.

Import SizeOnly.

Example test_threshold_not_set_on_init :
  bdrv_write_threshold_is_set_legacy zeroed = false /\
  bdrv_write_threshold_get_legacy zeroed = 0.
Proof. split; reflexivity. Qed.

Example test_threshold_set_get :
  let bs := bdrv_write_threshold_set_legacy zeroed (4 * MiB) in
  bdrv_write_threshold_is_set_legacy bs = true /\
  bdrv_write_threshold_get_legacy bs = 4 * MiB.
Proof. split; reflexivity. Qed.

Example test_threshold_multi_set_get :
  bdrv_write_threshold_get_legacy
    (bdrv_write_threshold_set_legacy
       (bdrv_write_threshold_set_legacy zeroed (4 * MiB)) (15 * MiB))
  = 15 * MiB.
Proof. reflexivity. Qed.

Example test_threshold_not_trigger :
  bdrv_write_threshold_exceeded (4 * MiB) 1024 1024 = 0.
Proof. reflexivity. Qed.

Example test_threshold_trigger :
  bdrv_write_threshold_exceeded (4 * MiB) (4 * MiB - 1024) (2 * 1024) >= 1024.
Proof. vm_compute. discriminate. Qed.

(** Setting and clearing the legacy threshold links and unlinks the hook. *)
Example hook_follows_threshold :
  before_write_notifiers (bdrv_write_threshold_set_legacy zeroed (4 * MiB))
  = [WriteThresholdNotifier] /\
  before_write_notifiers
    (bdrv_write_threshold_set_legacy
       (bdrv_write_threshold_set_legacy zeroed (4 * MiB)) 0)
  = [].
Proof. split; reflexivity. Qed.

End UnitTests.

(** * Further properties of the code *)

(** ** The exceedance computation *)

(** The value against an armed threshold, for a request in range. *)
Lemma exceeded_armed_value (threshold offset bytes : Z) :
  is_u64 threshold -> 0 < threshold -> request_in_range offset bytes ->
  bdrv_write_threshold_exceeded threshold offset bytes
  = if offset + bytes >? threshold then (offset + bytes) - threshold else 0.
Proof.
  intros Ht Hpos Hr. rewrite exceeded_is_exact by assumption.
  rewrite exceeded_exact_cases by lia.
  destruct (Z.eqb_spec threshold 0); [lia|].
  destruct (offset + bytes >? threshold) eqn:E2; [reflexivity|].
  destruct (offset >? threshold) eqn:E1; [range|reflexivity].
Qed.

(** X1: for a request whose end does not overflow, the computed amount is
    positive exactly when the threshold is set and the request ends
    beyond it. *)
Theorem exceeded_fires_iff (threshold offset bytes : Z) :
  is_u64 threshold -> request_in_range offset bytes ->
  0 < bdrv_write_threshold_exceeded threshold offset bytes
  <-> 0 < threshold /\ threshold < offset + bytes.
Proof.
  intros Ht Hr.
  destruct (Z.eq_dec threshold 0) as [E0|E0].
  - subst threshold. rewrite exceeded_zero_threshold. lia.
  - rewrite exceeded_armed_value by (assumption || range).
    destruct (Z.gtb_spec (offset + bytes) threshold); range.
Qed.

Lemma exceeded_fires_iff_witness :
  is_u64 4096 /\ request_in_range 4000 97 /\
  0 < bdrv_write_threshold_exceeded 4096 4000 97.
Proof.
  assert (Ht : is_u64 4096) by range.
  assert (Hr : request_in_range 4000 97) by range.
  split; [exact Ht|]. split; [exact Hr|].
  apply (exceeded_fires_iff 4096 4000 97 Ht Hr). lia.
Defined.

(** X2: against an armed threshold the amount grows with the end of the
    request and shrinks as the threshold is raised. *)
Theorem exceeded_monotone (threshold threshold' offset bytes offset' bytes' : Z) :
  is_u64 threshold -> is_u64 threshold' ->
  request_in_range offset bytes -> request_in_range offset' bytes' ->
  0 < threshold -> threshold <= threshold' ->
  offset + bytes <= offset' + bytes' ->
  bdrv_write_threshold_exceeded threshold' offset bytes
  <= bdrv_write_threshold_exceeded threshold offset bytes
  <= bdrv_write_threshold_exceeded threshold offset' bytes'.
Proof.
  intros Ht Ht' Hr Hr' Hpos Hle Hend.
  rewrite !exceeded_armed_value by (assumption || lia).
  destruct (Z.gtb_spec (offset + bytes) threshold');
    destruct (Z.gtb_spec (offset + bytes) threshold);
    destruct (Z.gtb_spec (offset' + bytes') threshold); lia.
Qed.

Lemma exceeded_monotone_witness :
  is_u64 100 /\ is_u64 200 /\
  request_in_range 50 100 /\ request_in_range 150 100 /\
  0 < 100 /\ 100 <= 200 /\ 50 + 100 <= 150 + 100 /\
  bdrv_write_threshold_exceeded 200 50 100
  <= bdrv_write_threshold_exceeded 100 50 100
  <= bdrv_write_threshold_exceeded 100 150 100.
Proof.
  assert (H1 : is_u64 100) by range.
  assert (H2 : is_u64 200) by range.
  assert (H3 : request_in_range 50 100) by range.
  assert (H4 : request_in_range 150 100) by range.
  assert (H5 : 0 < 100) by lia.
  assert (H6 : 100 <= 200) by lia.
  assert (H7 : 50 + 100 <= 150 + 100) by lia.
  do 7 (split; [assumption|]).
  exact (exceeded_monotone 100 200 50 100 150 100 H1 H2 H3 H4 H5 H6 H7).
Defined.

(** X3: without the assumption on [offset + bytes] the sum in the branch
    beyond the mark wraps: for a request starting beyond an armed
    threshold the result is [(offset - threshold) + bytes] modulo 2^64,
    which is 0, so that nothing is signalled, exactly when [bytes] is
    2^64 minus the gap. *)
Theorem exceeded_beyond_mark_wraps (threshold offset bytes : Z) :
  is_u64 threshold -> is_u64 offset -> is_u64 bytes ->
  0 < threshold -> threshold < offset ->
  bdrv_write_threshold_exceeded threshold offset bytes
  = ((offset - threshold) + bytes) mod modulus /\
  (bdrv_write_threshold_exceeded threshold offset bytes = 0
   <-> bytes = modulus - (offset - threshold)).
Proof.
  intros Ht Ho Hb Hpos Hgt.
  assert (Hval : bdrv_write_threshold_exceeded threshold offset bytes
                 = ((offset - threshold) + bytes) mod modulus).
  { unfold bdrv_write_threshold_exceeded.
    destruct (Z.eqb_spec threshold 0); [lia|]. cbn [negb].
    destruct (Z.gtb_spec offset threshold); [|lia].
    rewrite (sub64_exact offset threshold) by range. reflexivity. }
  split; [exact Hval|]. rewrite Hval, modulus_eq.
  unfold is_u64, UINT64_MAX in *.
  split; intros Hz.
  - apply Z.mod_divide in Hz; [|lia]. destruct Hz as [q Hq]. nia.
  - subst bytes.
    replace (offset - threshold + (18446744073709551616 - (offset - threshold)))
      with (1 * 18446744073709551616) by lia.
    apply Z.mod_mul. lia.
Qed.

Lemma exceeded_beyond_mark_wraps_witness :
  is_u64 1 /\ is_u64 2 /\ is_u64 UINT64_MAX /\ 0 < 1 /\ 1 < 2 /\
  bdrv_write_threshold_exceeded 1 2 UINT64_MAX = 0.
Proof.
  assert (H1 : is_u64 1) by range.
  assert (H2 : is_u64 2) by range.
  assert (H3 : is_u64 UINT64_MAX) by range.
  assert (H4 : 0 < 1) by lia.
  assert (H5 : 1 < 2) by lia.
  repeat (split; [assumption|]).
  apply (exceeded_beyond_mark_wraps 1 2 UINT64_MAX H1 H2 H3 H4 H5).
  reflexivity.
Defined.

(** ** Runs of the legacy path *)

Lemma exceeded_range (threshold offset bytes : Z) :
  is_u64 (bdrv_write_threshold_exceeded threshold offset bytes).
Proof.
  unfold bdrv_write_threshold_exceeded.
  destruct (negb (threshold =? 0)); [|range].
  destruct (offset >? threshold); [apply u64_range|].
  destruct (add64 offset bytes >? threshold); [apply u64_range|range].
Qed.

Lemma set_legacy_node_name (bs : BlockDriverState) (T : Z) :
  node_name (bdrv_write_threshold_set_legacy bs T) = node_name bs.
Proof.
  unfold bdrv_write_threshold_set_legacy, write_threshold_disable_legacy.
  destruct (bdrv_write_threshold_is_set_legacy bs); destruct (T >? 0);
    reflexivity.
Qed.

Lemma disable_legacy_node_name (bs : BlockDriverState) :
  node_name (write_threshold_disable_legacy bs) = node_name bs.
Proof.
  unfold write_threshold_disable_legacy.
  destruct (bdrv_write_threshold_is_set_legacy bs); reflexivity.
Qed.

Lemma disable_legacy_other_notifiers (bs : BlockDriverState) :
  other_notifiers (write_threshold_disable_legacy bs) = other_notifiers bs.
Proof.
  unfold other_notifiers, write_threshold_disable_legacy.
  destruct (bdrv_write_threshold_is_set_legacy bs); [|reflexivity].
  cbn. unfold notifier_with_return_remove. apply remove_remove_eq.
Qed.

Lemma set_legacy_other_notifiers (bs : BlockDriverState) (T : Z) :
  other_notifiers (bdrv_write_threshold_set_legacy bs T) = other_notifiers bs.
Proof.
  unfold bdrv_write_threshold_set_legacy.
  destruct (bdrv_write_threshold_is_set_legacy bs) eqn:Eset;
    destruct (T >? 0); try reflexivity.
  apply disable_legacy_other_notifiers.
Qed.

Lemma armed_after_set (bs : BlockDriverState) (T : Z) :
  is_u64 (write_threshold_offset bs) -> is_u64 T ->
  armed (bdrv_write_threshold_set_legacy bs T)
  = if T >? 0 then 1%nat else 0%nat.
Proof.
  intros Hbs HT. unfold armed, bdrv_write_threshold_is_set_legacy.
  pose proof (set_legacy_get bs T Hbs HT) as Hget.
  unfold bdrv_write_threshold_get_legacy in Hget. rewrite Hget. reflexivity.
Qed.

Section LegacyRunFacts.

Context {Backend : Type}.
Implicit Types (w : World Backend).

Lemma legacy_op_step (op : LegacyOp) w :
  is_u64 (write_threshold_offset (bds w)) -> ops_in_range [op] ->
  exists w' evs,
    legacy_op op w = Some (tt, w') /\ legacy_step_ok w w' evs (armings [op]).
Proof.
  intros Hr Hop. destruct op as [T|req].
  - destruct Hop as [HT _].
    exists (mkWorld (bdrv_write_threshold_set_legacy (bds w) T)
              (monitor w) (backend w)), [].
    split; [reflexivity|]. unfold legacy_step_ok. cbn [bds backend armings].
    split; [unfold emitted; cbn; rewrite app_nil_r; reflexivity|].
    split; [pose proof (set_legacy_get (bds w) T Hr HT) as Hget;
            unfold bdrv_write_threshold_get_legacy in Hget;
            rewrite Hget; exact HT|].
    split; [apply set_legacy_node_name|].
    split; [apply set_legacy_other_notifiers|].
    split; [apply set_legacy_hook_consistent; exact HT|].
    split; [reflexivity|]. split; [constructor|].
    rewrite armed_after_set by assumption. cbn. lia.
  - cbn [legacy_op]. unfold bind. rewrite before_write_notify_eval. cbn zeta.
    destruct (Z.gtb_spec
                (bdrv_write_threshold_exceeded (write_threshold_offset (bds w))
                   (u64 (req_offset req)) (u64 (req_bytes req))) 0)
      as [Hpos|Hzero].
    + apply exceeded_pos_threshold_pos in Hpos as Harmed; [|assumption].
      eexists. eexists. split; [reflexivity|].
      unfold legacy_step_ok. cbn [bds backend monitor armings].
      split; [reflexivity|].
      split; [rewrite disable_legacy_when_armed by assumption; range|].
      split; [apply disable_legacy_node_name|].
      split; [apply disable_legacy_other_notifiers|].
      split; [apply disable_legacy_hook_consistent|].
      split; [reflexivity|]. split.
      * constructor; [|constructor]. unfold event_ok. cbn.
        pose proof (exceeded_range (write_threshold_offset (bds w))
                      (u64 (req_offset req)) (u64 (req_bytes req))).
        split; [reflexivity|]. range.
      * unfold armed at 1, bdrv_write_threshold_is_set_legacy.
        rewrite disable_legacy_when_armed by assumption.
        unfold armed, bdrv_write_threshold_is_set_legacy.
        destruct (Z.gtb_spec (write_threshold_offset (bds w)) 0); cbn; lia.
    + exists w, []. split; [reflexivity|]. unfold legacy_step_ok.
      split; [apply emitted_nil|]. split; [assumption|].
      do 2 (split; [reflexivity|]). split; [tauto|].
      split; [reflexivity|]. split; [constructor|]. cbn. lia.
Qed.

Lemma ops_in_range_cons (op : LegacyOp) (rest : list LegacyOp) :
  ops_in_range (op :: rest) -> ops_in_range [op] /\ ops_in_range rest.
Proof. destruct op; cbn; tauto. Qed.

Lemma armings_cons (op : LegacyOp) (rest : list LegacyOp) :
  armings (op :: rest) = (armings [op] + armings rest)%nat.
Proof. destruct op; cbn; lia. Qed.

(** The same for a whole run. *)
Lemma legacy_all_run (ops : list LegacyOp) : forall w,
  is_u64 (write_threshold_offset (bds w)) -> ops_in_range ops ->
  exists w' evs,
    legacy_all ops w = Some (tt, w') /\ legacy_step_ok w w' evs (armings ops).
Proof.
  induction ops as [|op rest IH]; intros w Hr Hops.
  - exists w, []. split; [reflexivity|]. unfold legacy_step_ok.
    split; [apply emitted_nil|]. split; [assumption|].
    do 2 (split; [reflexivity|]). split; [tauto|].
    split; [reflexivity|]. split; [constructor|]. cbn. lia.
  - apply ops_in_range_cons in Hops as [Hop Hrest].
    destruct (legacy_op_step op w Hr Hop)
      as (w1 & evs1 & Hrun1 & Hem1 & Hr1 & Hn1 & Ho1 & Hc1 & Hb1 & Hok1 & Hcnt1).
    destruct (IH w1 Hr1 Hrest)
      as (w2 & evs2 & Hrun2 & Hem2 & Hr2 & Hn2 & Ho2 & Hc2 & Hb2 & Hok2 & Hcnt2).
    exists w2, (evs1 ++ evs2). split.
    + cbn [legacy_all]. unfold bind. rewrite Hrun1. exact Hrun2.
    + unfold legacy_step_ok.
      split; [unfold emitted in *; rewrite Hem2, Hem1, app_assoc; reflexivity|].
      split; [assumption|]. split; [congruence|]. split; [congruence|].
      split; [tauto|]. split; [congruence|]. split.
      * apply Forall_app. split; [assumption|]. rewrite <- Hn1. assumption.
      * rewrite armings_cons, length_app. lia.
Qed.

End LegacyRunFacts.

(** Range conditions on closed terms. *)
Ltac closed_range := vm_compute; intuition discriminate.

(** X4: over any run of threshold settings and writes on a node, the
    callback's hook stays linked exactly while the threshold is set and
    never twice, the entries of other notifiers on the hook list stay as
    they were, in order, and the node keeps its name. *)
Theorem legacy_hook_invariant {Backend : Type} (ops : list LegacyOp)
  (w : World Backend) :
  is_u64 (write_threshold_offset (bds w)) -> ops_in_range ops ->
  hook_consistent (bds w) ->
  exists w',
    legacy_all ops w = Some (tt, w') /\
    hook_consistent (bds w') /\
    other_notifiers (bds w') = other_notifiers (bds w) /\
    node_name (bds w') = node_name (bds w).
Proof.
  intros Hr Hops Hc.
  destruct (legacy_all_run ops w Hr Hops)
    as (w' & evs & Hrun & _ & _ & Hn & Ho & Hc' & _).
  exists w'. split; [exact Hrun|]. split; [exact (Hc' Hc)|].
  split; [exact Ho|exact Hn].
Qed.

Lemma legacy_hook_invariant_witness :
  is_u64 (write_threshold_offset Samples.hooked_disk0) /\
  ops_in_range Samples.cycle /\
  hook_consistent Samples.hooked_disk0 /\
  exists w' : World Z,
    legacy_all Samples.cycle (mkWorld Samples.hooked_disk0 [] 0)
    = Some (tt, w') /\
    hook_consistent (bds w') /\
    other_notifiers (bds w') = [OtherNotifier 7].
Proof.
  assert (H1 : is_u64 (write_threshold_offset Samples.hooked_disk0))
    by closed_range.
  assert (H2 : ops_in_range Samples.cycle) by closed_range.
  assert (H3 : hook_consistent Samples.hooked_disk0) by reflexivity.
  do 3 (split; [assumption|]).
  destruct (legacy_hook_invariant Samples.cycle
              (mkWorld Samples.hooked_disk0 [] 0) H1 H2 H3)
    as (w' & Hrun & Hc & Ho & _).
  exists w'. split; [exact Hrun|]. split; [exact Hc|exact Ho].
Defined.

(** X5: over any run of threshold settings and writes, the callback sends
    at most one event per arming: the number of events is at most the
    number of settings to a positive value, plus one if the threshold was
    set at the start. *)
Theorem legacy_flood_bound {Backend : Type} (ops : list LegacyOp)
  (w : World Backend) :
  is_u64 (write_threshold_offset (bds w)) -> ops_in_range ops ->
  exists w' evs,
    legacy_all ops w = Some (tt, w') /\
    emitted w w' evs /\
    (List.length evs + armed (bds w') <= armed (bds w) + armings ops)%nat.
Proof.
  intros Hr Hops.
  destruct (legacy_all_run ops w Hr Hops)
    as (w' & evs & Hrun & Hem & _ & _ & _ & _ & _ & _ & Hcnt).
  exists w', evs. split; [exact Hrun|]. split; [exact Hem|exact Hcnt].
Qed.

Lemma legacy_flood_bound_witness :
  is_u64 (write_threshold_offset Samples.hooked_disk0) /\
  ops_in_range Samples.cycle /\
  exists (w' : World Z) evs,
    legacy_all Samples.cycle (mkWorld Samples.hooked_disk0 [] 0)
    = Some (tt, w') /\
    monitor w' = evs /\ (List.length evs <= 2)%nat.
Proof.
  assert (H1 : is_u64 (write_threshold_offset Samples.hooked_disk0))
    by closed_range.
  assert (H2 : ops_in_range Samples.cycle) by closed_range.
  do 2 (split; [assumption|]).
  destruct (legacy_flood_bound Samples.cycle
              (mkWorld Samples.hooked_disk0 [] 0) H1 H2)
    as (w' & evs & Hrun & Hem & Hcnt).
  exists w', evs. split; [exact Hrun|]. split; [exact Hem|].
  assert (Hn : (armed Samples.hooked_disk0 + armings Samples.cycle)%nat
               = 2%nat) by reflexivity.
  cbn [bds] in Hcnt. rewrite Hn in Hcnt. lia.
Defined.

(** X6: every event the callback sends names the node it runs on and
    carries a positive amount and a positive threshold, both within
    [uint64_t]; no event ever reports an amount or a threshold of 0. *)
Theorem legacy_events_wellformed {Backend : Type} (ops : list LegacyOp)
  (w : World Backend) :
  is_u64 (write_threshold_offset (bds w)) -> ops_in_range ops ->
  exists w' evs,
    legacy_all ops w = Some (tt, w') /\
    emitted w w' evs /\
    Forall (event_ok (node_name (bds w))) evs.
Proof.
  intros Hr Hops.
  destruct (legacy_all_run ops w Hr Hops)
    as (w' & evs & Hrun & Hem & _ & _ & _ & _ & _ & Hok & _).
  exists w', evs. split; [exact Hrun|]. split; [exact Hem|exact Hok].
Qed.

Lemma legacy_events_wellformed_witness :
  is_u64 (write_threshold_offset Samples.hooked_disk0) /\
  ops_in_range Samples.cycle /\
  exists (w' : World Z) evs,
    legacy_all Samples.cycle (mkWorld Samples.hooked_disk0 [] 0)
    = Some (tt, w') /\
    monitor w' = evs /\ Forall (event_ok "disk0") evs.
Proof.
  assert (H1 : is_u64 (write_threshold_offset Samples.hooked_disk0))
    by closed_range.
  assert (H2 : ops_in_range Samples.cycle) by closed_range.
  do 2 (split; [assumption|]).
  destruct (legacy_events_wellformed Samples.cycle
              (mkWorld Samples.hooked_disk0 [] 0) H1 H2)
    as (w' & evs & Hrun & Hem & Hok).
  exists w', evs. split; [exact Hrun|]. split; [exact Hem|exact Hok].
Defined.

(** X7: once the threshold has been set to 0, whatever it was before, no
    run of writes sends an event or changes the node, until it is set
    again. *)
Theorem legacy_disable_silences {Backend : Type} (w : World Backend)
  (reqs : list BdrvTrackedRequest) :
  is_u64 (write_threshold_offset (bds w)) ->
  exists w0,
    legacy_op (OpSetThreshold 0) w = Some (tt, w0) /\
    bdrv_write_threshold_get_legacy (bds w0) = 0 /\
    monitor w0 = monitor w /\
    before_write_notify_all reqs w0 = Some (tt, w0).
Proof.
  intros Hr. eexists. split; [reflexivity|]. cbn [bds monitor].
  assert (Hget : bdrv_write_threshold_get_legacy
                   (bdrv_write_threshold_set_legacy (bds w) 0) = 0)
    by (apply set_legacy_get; [assumption|range]).
  split; [exact Hget|]. split; [reflexivity|].
  apply before_write_notify_all_disarmed. exact Hget.
Qed.

Lemma legacy_disable_silences_witness :
  is_u64 (write_threshold_offset (bds SizeOnly.legacy_world)) /\
  exists w0,
    legacy_op (OpSetThreshold 0) SizeOnly.legacy_world = Some (tt, w0) /\
    before_write_notify_all [SizeOnly.straddling; SizeOnly.below] w0
    = Some (tt, w0).
Proof.
  assert (H1 : is_u64 (write_threshold_offset (bds SizeOnly.legacy_world)))
    by closed_range.
  split; [exact H1|].
  destruct (legacy_disable_silences SizeOnly.legacy_world
              [SizeOnly.straddling; SizeOnly.below] H1)
    as (w0 & Hset & _ & _ & Hquiet).
  exists w0. split; [exact Hset|exact Hquiet].
Defined.

(** ** The QMP command *)

Lemma bdrv_find_node_none (name : string) (g : Graph) :
  (forall bs, In bs g -> node_name bs <> name) ->
  bdrv_find_node name g = None.
Proof.
  induction g as [|x rest IH]; intros Hnone; [reflexivity|].
  cbn [bdrv_find_node].
  destruct (String.eqb_spec name (node_name x)) as [E|_].
  - exfalso. apply (Hnone x); [left; reflexivity|congruence].
  - rewrite IH; [reflexivity|]. intros bs Hin. apply Hnone. right. exact Hin.
Qed.

Lemma bdrv_find_node_some (name : string) (g : Graph) : forall p bs,
  bdrv_find_node name g = Some (p, bs) ->
  nth_error g p = Some bs /\ node_name bs = name.
Proof.
  induction g as [|x rest IH]; intros p bs Hfind; [discriminate|].
  cbn [bdrv_find_node] in Hfind.
  destruct (String.eqb_spec name (node_name x)) as [E|_].
  - injection Hfind as <- <-. split; [reflexivity|congruence].
  - destruct (bdrv_find_node name rest) as [[i found]|]; [|discriminate].
    injection Hfind as <- <-. apply (IH i found). reflexivity.
Qed.

Lemma graph_store_same (g : Graph) : forall p old bs,
  nth_error g p = Some old -> nth_error (graph_store p bs g) p = Some bs.
Proof.
  induction g as [|x rest IH]; intros [|p] old bs Hold;
    try discriminate; cbn in *; [reflexivity|].
  apply (IH p old). exact Hold.
Qed.

Lemma graph_store_other (g : Graph) : forall p q bs,
  q <> p -> nth_error (graph_store p bs g) q = nth_error g q.
Proof.
  induction g as [|x rest IH]; intros [|p] [|q] bs Hneq; cbn;
    try reflexivity; try congruence.
  apply IH. congruence.
Qed.

Lemma graph_store_names (g : Graph) : forall p old bs,
  nth_error g p = Some old -> node_name bs = node_name old ->
  map node_name (graph_store p bs g) = map node_name g.
Proof.
  induction g as [|x rest IH]; intros [|p] old bs Hold Hname;
    try discriminate; cbn in *.
  - injection Hold as ->. rewrite Hname. reflexivity.
  - f_equal. apply (IH p old); assumption.
Qed.

Lemma release_one_head (ctx : AioContext) (held : list AioContext) :
  release_one ctx (ctx :: held) = held.
Proof. cbn. rewrite Nat.eqb_refl. reflexivity. Qed.

(** X8: for a name no node of the graph carries, the command reports
    [Device '<name>' not found] and changes nothing: no node is touched
    and no execution context is acquired. *)
Theorem qmp_unknown_node (ctx_of : BlockDriverState -> AioContext)
  (name : string) (threshold_bytes : Z) (w : QmpWorld) :
  (forall bs, In bs (graph w) -> node_name bs <> name) ->
  qmp_block_set_write_threshold ctx_of name threshold_bytes w
  = (Some ("Device '" ++ name ++ "' not found")%string, w).
Proof.
  intros Hnone. unfold qmp_block_set_write_threshold.
  rewrite bdrv_find_node_none by assumption. reflexivity.
Qed.

Lemma qmp_unknown_node_witness :
  (forall bs, In bs (graph Samples.two_disks) -> node_name bs <> "disk9"%string) /\
  qmp_block_set_write_threshold Samples.ctx_of "disk9" 4096 Samples.two_disks
  = (Some "Device 'disk9' not found"%string, Samples.two_disks).
Proof.
  assert (Hnone : forall bs, In bs (graph Samples.two_disks) ->
                            node_name bs <> "disk9"%string).
  { intros bs [<-|[<-|[]]]; cbn; discriminate. }
  split; [exact Hnone|].
  exact (qmp_unknown_node Samples.ctx_of "disk9" 4096 Samples.two_disks Hnone).
Defined.

(** X9: for a name the lookup finds, the command reports no error and
    sets the threshold of that node to the given value; every other node
    of the graph is as it was, no node changes its name, and the execution
    contexts held afterwards are the ones held before. *)
Theorem qmp_known_node (ctx_of : BlockDriverState -> AioContext)
  (name : string) (threshold_bytes : Z) (w : QmpWorld)
  (p : nat) (bs : BlockDriverState) :
  bdrv_find_node name (graph w) = Some (p, bs) ->
  is_u64 (write_threshold_offset bs) -> is_u64 threshold_bytes ->
  exists w' bs',
    qmp_block_set_write_threshold ctx_of name threshold_bytes w = (None, w') /\
    nth_error (graph w') p = Some bs' /\
    bdrv_write_threshold_get_legacy bs' = threshold_bytes /\
    (forall q, q <> p -> nth_error (graph w') q = nth_error (graph w) q) /\
    map node_name (graph w') = map node_name (graph w) /\
    aio_held w' = aio_held w.
Proof.
  intros Hfind Hbs HT.
  destruct (bdrv_find_node_some name (graph w) p bs Hfind) as [Hnth Hname].
  unfold qmp_block_set_write_threshold. rewrite Hfind.
  eexists. exists (bdrv_write_threshold_set_legacy bs threshold_bytes).
  split; [reflexivity|].
  unfold aio_context_release, aio_context_acquire. cbn [graph aio_held].
  split; [apply (graph_store_same (graph w) p bs); exact Hnth|].
  split; [apply set_legacy_get; assumption|].
  split; [intros q Hq; apply graph_store_other; exact Hq|].
  split; [apply (graph_store_names (graph w) p bs);
          [exact Hnth|apply set_legacy_node_name]|].
  apply release_one_head.
Qed.

Lemma qmp_known_node_witness :
  bdrv_find_node "disk1" (graph Samples.two_disks) = Some (1%nat, Samples.disk1) /\
  is_u64 (write_threshold_offset Samples.disk1) /\ is_u64 4096 /\
  exists w' bs',
    qmp_block_set_write_threshold Samples.ctx_of "disk1" 4096 Samples.two_disks
    = (None, w') /\
    nth_error (graph w') 1 = Some bs' /\
    bdrv_write_threshold_get_legacy bs' = 4096 /\
    nth_error (graph w') 0 = Some Samples.hooked_disk0 /\
    aio_held w' = [3%nat].
Proof.
  assert (H1 : bdrv_find_node "disk1" (graph Samples.two_disks)
               = Some (1%nat, Samples.disk1)) by reflexivity.
  assert (H2 : is_u64 (write_threshold_offset Samples.disk1)) by closed_range.
  assert (H3 : is_u64 4096) by closed_range.
  do 3 (split; [assumption|]).
  destruct (qmp_known_node Samples.ctx_of "disk1" 4096 Samples.two_disks
              1%nat Samples.disk1 H1 H2 H3)
    as (w' & bs' & Hrun & Hnth & Hget & Hother & _ & Hheld).
  exists w', bs'. split; [exact Hrun|]. split; [exact Hnth|].
  split; [exact Hget|]. split; [|exact Hheld].
  rewrite (Hother 0%nat) by discriminate. reflexivity.
Defined.

(** ** Opening the filter *)

(** X10: when the child cannot be opened, or the options are rejected,
    [write_threshold_open] returns [-EINVAL] with an error in [errp] and
    leaves the threshold storage as it was: a failed open never arms. *)
Theorem open_failure_never_arms (env : OpenEnv) (bs : BlockDriverState)
  (fl : BdsFlags) :
  env_child env = None \/ env_absorb_err env <> None ->
  open_ret (write_threshold_open env bs fl) = - EINVAL /\
  open_errp (write_threshold_open env bs fl) <> None /\
  opaque (open_bs (write_threshold_open env bs fl)) = opaque bs /\
  (env_child env = None ->
   file (open_bs (write_threshold_open env bs fl)) = None).
Proof.
  intros Hfail. unfold write_threshold_open.
  destruct (env_child env) as [[child child_fl]|] eqn:Echild.
  - destruct (env_absorb_err env) as [local_err|] eqn:Eabsorb.
    + cbn. repeat split; discriminate.
    + exfalso. destruct Hfail as [Hc|Ha]; [discriminate|apply Ha; reflexivity].
  - cbn. repeat split; discriminate.
Qed.

Lemma open_failure_never_arms_witness :
  (env_child Samples.env_bad_option = None \/
   env_absorb_err Samples.env_bad_option <> None) /\
  open_ret (write_threshold_open Samples.env_bad_option Samples.unopened
              Samples.no_flags) = -22 /\
  opaque (open_bs (write_threshold_open Samples.env_bad_option Samples.unopened
                     Samples.no_flags)) = 77.
Proof.
  assert (Hfail : env_child Samples.env_bad_option = None \/
                  env_absorb_err Samples.env_bad_option <> None)
    by (right; discriminate).
  split; [exact Hfail|].
  destruct (open_failure_never_arms Samples.env_bad_option Samples.unopened
              Samples.no_flags Hfail) as (Hret & _ & Hopaque & _).
  split; [exact Hret|exact Hopaque].
Defined.

(** X11: when the child opens and the options are accepted,
    [write_threshold_open] returns 0 with no error, links the child,
    takes over the child's supported write and zero flags, and stores the
    number given for the threshold option, or 0 when none was given,
    over whatever the storage held. *)
Theorem open_success_sets_threshold (env : OpenEnv) (bs : BlockDriverState)
  (fl : BdsFlags) (c : BdrvChild) (child_fl : BdsFlags) :
  env_child env = Some (c, child_fl) -> env_absorb_err env = None ->
  open_ret (write_threshold_open env bs fl) = 0 /\
  open_errp (write_threshold_open env bs fl) = None /\
  file (open_bs (write_threshold_open env bs fl)) = Some c /\
  open_flags (write_threshold_open env bs fl) = child_fl /\
  opaque (open_bs (write_threshold_open env bs fl))
  = match env_number env with Some n => u64 n | None => 0 end /\
  is_u64 (opaque (open_bs (write_threshold_open env bs fl))).
Proof.
  intros Hchild Habsorb. unfold write_threshold_open.
  rewrite Hchild, Habsorb. cbn.
  assert (Hval : u64 (s64 (qemu_opt_get_number env 0))
                 = match env_number env with Some n => u64 n | None => 0 end).
  { unfold qemu_opt_get_number. destruct (env_number env) as [n|].
    - rewrite u64_s64. apply u64_id, u64_range.
    - reflexivity. }
  repeat split; try (destruct child_fl; reflexivity); try exact Hval;
    rewrite Hval; destruct (env_number env); try apply u64_range; range.
Qed.

Lemma open_success_sets_threshold_witness :
  env_child Samples.env_4M = Some (mkChild SizeOnly.disk0, Samples.child_flags) /\
  env_absorb_err Samples.env_4M = None /\
  open_ret (write_threshold_open Samples.env_4M Samples.unopened
              Samples.no_flags) = 0 /\
  opaque (open_bs (write_threshold_open Samples.env_4M Samples.unopened
                     Samples.no_flags)) = 4194304.
Proof.
  assert (H1 : env_child Samples.env_4M
               = Some (mkChild SizeOnly.disk0, Samples.child_flags))
    by reflexivity.
  assert (H2 : env_absorb_err Samples.env_4M = None) by reflexivity.
  do 2 (split; [assumption|]).
  destruct (open_success_sets_threshold Samples.env_4M Samples.unopened
              Samples.no_flags _ _ H1 H2) as (Hret & _ & _ & _ & Hopaque & _).
  split; [exact Hret|]. rewrite Hopaque. reflexivity.
Defined.

(** ** Runs of requests through the filter *)

Section FilterRunFacts.

Context {Backend : Type} `{BlockLayer Backend}.
Implicit Types (w : World Backend) (c : BdrvChild).

Lemma filter_step_ok_refl w c :
  file (bds w) = Some c -> is_u64 (opaque (bds w)) -> filter_step_ok c w w [].
Proof.
  intros Hfile Hr. unfold filter_step_ok.
  split; [apply emitted_nil|]. do 2 (split; [assumption|]).
  split; [left; reflexivity|]. split; [constructor|]. cbn. lia.
Qed.

Lemma filter_step_ok_trans w w1 w2 c evs1 evs2 :
  filter_step_ok c w w1 evs1 -> filter_step_ok c w1 w2 evs2 ->
  filter_step_ok c w w2 (evs1 ++ evs2).
Proof.
  intros (Hem1 & Hf1 & Hr1 & Hb1 & Hok1 & Hn1) (Hem2 & Hf2 & Hr2 & Hb2 & Hok2 & Hn2).
  unfold filter_step_ok.
  split; [unfold emitted in *; rewrite Hem2, Hem1, app_assoc; reflexivity|].
  do 2 (split; [assumption|]). split.
  - destruct Hb2 as [E2|E2]; rewrite E2; [exact Hb1|].
    right. destruct Hb1 as [E1|E1]; rewrite E1; reflexivity.
  - split; [apply Forall_app; split; assumption|].
    rewrite length_app. lia.
Qed.

(** What the check keeps or bounds on a node that has its child. *)
Lemma check_amount_step w c (offset bytes : Z) :
  file (bds w) = Some c -> is_u64 (opaque (bds w)) ->
  exists w1 evs,
    bdrv_write_threshold_check_amount offset bytes w = Some (tt, w1) /\
    backend w1 = backend w /\ filter_step_ok c w w1 evs.
Proof.
  intros Hfile Hr. rewrite check_amount_eval. cbn zeta. rewrite Hfile.
  destruct (Z.gtb_spec
              (bdrv_write_threshold_exceeded (opaque (bds w)) offset bytes) 0)
    as [Hpos|Hzero].
  - apply exceeded_pos_threshold_pos in Hpos as Harmed; [|assumption].
    eexists. eexists. split; [reflexivity|]. split; [reflexivity|].
    unfold filter_step_ok. cbn [bds monitor].
    rewrite disable_when_armed by assumption.
    split; [reflexivity|]. split; [exact Hfile|]. split; [cbn; range|].
    split; [right; reflexivity|]. split.
    + constructor; [|constructor]. unfold event_ok. cbn.
      pose proof (exceeded_range (opaque (bds w)) offset bytes).
      split; [reflexivity|]. range.
    + unfold filter_armed, bdrv_write_threshold_is_set. cbn.
      destruct (Z.gtb_spec (opaque (bds w)) 0); cbn; lia.
  - exists w, []. split; [reflexivity|]. split; [reflexivity|].
    apply filter_step_ok_refl; assumption.
Qed.

Lemma returned_step w w1 c evs (rb : Z * Backend) :
  filter_step_ok c w w1 evs ->
  exists r w',
    returned w1 rb = Some (r, w') /\ (r, backend w') = rb /\
    filter_step_ok c w w' evs.
Proof.
  intros Hok. eexists. eexists. split; [reflexivity|].
  split; [destruct rb; reflexivity|exact Hok].
Qed.

(** One request through the driver table. *)
Lemma write_threshold_step (op : FilterOp) w c :
  file (bds w) = Some c -> is_u64 (opaque (bds w)) ->
  exists r w' evs,
    write_threshold op w = Some (r, w') /\
    (r, backend w') = direct c op (backend w) /\
    filter_step_ok c w w' evs.
Proof.
  intros Hfile Hr.
  assert (Hwrite : forall o b (f : BdrvChild -> Backend -> Z * Backend),
            exists r w' evs,
              (bdrv_write_threshold_check_amount o b ;;
               bs <- get_bds ;; child <- deref (file bs) ;; call (f child))%blk w
              = Some (r, w') /\
              (r, backend w') = f c (backend w) /\ filter_step_ok c w w' evs).
  { intros o b f.
    destruct (check_then_forward w c o b f Hfile) as (w1 & Hc1 & Hrun).
    destruct (check_amount_step w c o b Hfile Hr) as (w1' & evs & Hc2 & _ & Hok).
    rewrite Hc1 in Hc2. injection Hc2 as <-.
    destruct (returned_step w w1 c evs (f c (backend w)) Hok)
      as (r & w' & Hret & Hrb & Hok').
    exists r, w', evs. split; [rewrite Hrun; exact Hret|].
    split; [exact Hrb|exact Hok']. }
  assert (Hread : forall (f : BdrvChild -> Backend -> Z * Backend),
            exists r w' evs,
              (bs <- get_bds ;; child <- deref (file bs) ;; call (f child))%blk w
              = Some (r, w') /\
              (r, backend w') = f c (backend w) /\ filter_step_ok c w w' evs).
  { intros f.
    destruct (returned_step w w c [] (f c (backend w))
                (filter_step_ok_refl w c Hfile Hr))
      as (r & w' & Hret & Hrb & Hok').
    exists r, w', []. split; [|split; [exact Hrb|exact Hok']].
    unfold bind, get_bds, deref. rewrite Hfile, call_returned. exact Hret. }
  destruct op as [o b q f|o b q f|o b f|o b| |]; cbn [write_threshold direct].
  - exact (Hread (fun child => bdrv_co_preadv child o b q f)).
  - exact (Hwrite o b (fun child => bdrv_co_pwritev child o b q f)).
  - exact (Hwrite (u64 o) (u64 b) (fun child => bdrv_co_pwrite_zeroes child o b f)).
  - exact (Hwrite (u64 o) (u64 b) (fun child => bdrv_co_pdiscard (c_bs child) o b)).
  - exact (Hread (fun child => bdrv_co_flush (c_bs child))).
  - exact (Hread (fun child => bdrv_getlength (c_bs child))).
Qed.

(** A whole run of requests. *)
Lemma write_threshold_all_run (ops : list FilterOp) : forall w c,
  file (bds w) = Some c -> is_u64 (opaque (bds w)) ->
  exists rs w' evs,
    write_threshold_all ops w = Some (rs, w') /\
    (rs, backend w') = direct_all c ops (backend w) /\
    filter_step_ok c w w' evs.
Proof.
  induction ops as [|op rest IH]; intros w c Hfile Hr.
  - exists [], w, []. split; [reflexivity|]. split; [reflexivity|].
    apply filter_step_ok_refl; assumption.
  - destruct (write_threshold_step op w c Hfile Hr)
      as (r & w1 & evs1 & Hrun1 & Hd1 & Hok1).
    pose proof Hok1 as (_ & Hfile1 & Hr1 & _).
    destruct (IH w1 c Hfile1 Hr1) as (rs & w2 & evs2 & Hrun2 & Hd2 & Hok2).
    exists (r :: rs), w2, (evs1 ++ evs2). split; [|split].
    + cbn [write_threshold_all]. unfold bind at 1. rewrite Hrun1.
      unfold bind at 1. rewrite Hrun2. reflexivity.
    + cbn [direct_all]. rewrite <- Hd1, <- Hd2. reflexivity.
    + apply (filter_step_ok_trans w w1 w2); assumption.
Qed.

End FilterRunFacts.

Lemma set_opaque_same (bs : BlockDriverState) :
  opaque bs = 0 -> set_opaque 0 bs = bs.
Proof. destruct bs; cbn. intros ->. reflexivity. Qed.

Lemma filter_armed_zero (bs : BlockDriverState) :
  is_u64 (opaque bs) -> filter_armed bs = 0%nat -> opaque bs = 0.
Proof.
  unfold filter_armed, bdrv_write_threshold_is_set. intros Hr Hz.
  destruct (Z.gtb_spec (opaque bs) 0); [discriminate|range].
Qed.

(** X12: on a filter node that has its child, every run of reads, writes,
    zero writes, discards, flushes and length queries returns, and the
    return values and the state left behind the child are those of the
    same requests made on the child directly: the filter is transparent
    to the I/O it carries, whatever the threshold. *)
Theorem filter_is_transparent {Backend : Type} `{BlockLayer Backend}
  (ops : list FilterOp) (w : World Backend) (c : BdrvChild) :
  file (bds w) = Some c -> is_u64 (opaque (bds w)) ->
  exists rs w',
    write_threshold_all ops w = Some (rs, w') /\
    (rs, backend w') = direct_all c ops (backend w) /\
    file (bds w') = Some c.
Proof.
  intros Hfile Hr.
  destruct (write_threshold_all_run ops w c Hfile Hr)
    as (rs & w' & evs & Hrun & Hd & _ & Hfile' & _).
  exists rs, w'. split; [exact Hrun|]. split; [exact Hd|exact Hfile'].
Qed.

Lemma filter_is_transparent_witness :
  file (bds SizeOnly.filter_world) = Some (mkChild SizeOnly.disk0) /\
  is_u64 (opaque (bds SizeOnly.filter_world)) /\
  exists rs w',
    write_threshold_all Samples.traffic SizeOnly.filter_world = Some (rs, w') /\
    (rs, backend w')
    = direct_all (mkChild SizeOnly.disk0) Samples.traffic 0.
Proof.
  assert (H1 : file (bds SizeOnly.filter_world) = Some (mkChild SizeOnly.disk0))
    by reflexivity.
  assert (H2 : is_u64 (opaque (bds SizeOnly.filter_world))) by closed_range.
  do 2 (split; [assumption|]).
  destruct (filter_is_transparent Samples.traffic SizeOnly.filter_world
              (mkChild SizeOnly.disk0) H1 H2) as (rs & w' & Hrun & Hd & _).
  exists rs, w'. split; [exact Hrun|exact Hd].
Defined.

(** X13: over any run of requests through the filter at most one event
    is sent; an event names the child node and carries a positive amount
    and a positive threshold; the node ends as it started or with its
    threshold at 0, and at 0 whenever an event was sent. *)
Theorem filter_lifetime_one_event {Backend : Type} `{BlockLayer Backend}
  (ops : list FilterOp) (w : World Backend) (c : BdrvChild) :
  file (bds w) = Some c -> is_u64 (opaque (bds w)) ->
  exists rs w' evs,
    write_threshold_all ops w = Some (rs, w') /\
    emitted w w' evs /\ (List.length evs <= 1)%nat /\
    Forall (event_ok (node_name (c_bs c))) evs /\
    (bds w' = bds w \/ bds w' = set_opaque 0 (bds w)) /\
    (evs <> [] -> opaque (bds w') = 0).
Proof.
  intros Hfile Hr.
  destruct (write_threshold_all_run ops w c Hfile Hr)
    as (rs & w' & evs & Hrun & _ & Hem & _ & Hr' & Hb & Hok & Hcnt).
  exists rs, w', evs. split; [exact Hrun|]. split; [exact Hem|].
  assert (Hone : (filter_armed (bds w) <= 1)%nat)
    by (unfold filter_armed; destruct (bdrv_write_threshold_is_set (bds w)); lia).
  split; [lia|]. split; [exact Hok|]. split; [exact Hb|].
  intros Hne. apply filter_armed_zero; [exact Hr'|].
  destruct evs as [|ev evs]; [congruence|]. cbn in Hcnt. lia.
Qed.

Lemma filter_lifetime_one_event_witness :
  file (bds SizeOnly.filter_world) = Some (mkChild SizeOnly.disk0) /\
  is_u64 (opaque (bds SizeOnly.filter_world)) /\
  exists rs w' evs,
    write_threshold_all Samples.traffic SizeOnly.filter_world = Some (rs, w') /\
    monitor w' = evs /\ (List.length evs <= 1)%nat.
Proof.
  assert (H1 : file (bds SizeOnly.filter_world) = Some (mkChild SizeOnly.disk0))
    by reflexivity.
  assert (H2 : is_u64 (opaque (bds SizeOnly.filter_world))) by closed_range.
  do 2 (split; [assumption|]).
  destruct (filter_lifetime_one_event Samples.traffic SizeOnly.filter_world
              (mkChild SizeOnly.disk0) H1 H2)
    as (rs & w' & evs & Hrun & Hem & Hcnt & _).
  exists rs, w', evs. split; [exact Hrun|]. split; [exact Hem|exact Hcnt].
Defined.

(** X14: a filter whose threshold is 0 is a pure pass-through: over any
    run of requests the node and the monitor stay exactly as they were,
    and only the state behind the child moves, as the child moves it. *)
Theorem filter_unarmed_is_passthrough {Backend : Type} `{BlockLayer Backend}
  (ops : list FilterOp) (w : World Backend) (c : BdrvChild) :
  file (bds w) = Some c -> opaque (bds w) = 0 ->
  write_threshold_all ops w
  = Some (fst (direct_all c ops (backend w)),
          mkWorld (bds w) (monitor w) (snd (direct_all c ops (backend w)))).
Proof.
  intros Hfile Hz.
  assert (Hr : is_u64 (opaque (bds w))) by (rewrite Hz; range).
  destruct (write_threshold_all_run ops w c Hfile Hr)
    as (rs & w' & evs & Hrun & Hd & Hem & _ & _ & Hb & _ & Hcnt).
  rewrite Hrun, <- Hd. cbn [fst snd]. do 2 f_equal.
  assert (Hnone : evs = []).
  { assert (Hoff : filter_armed (bds w) = 0%nat)
      by (unfold filter_armed, bdrv_write_threshold_is_set;
          rewrite Hz; reflexivity).
    rewrite Hoff in Hcnt.
    destruct evs; [reflexivity|cbn in Hcnt; lia]. }
  subst evs. unfold emitted in Hem. rewrite app_nil_r in Hem.
  rewrite <- (world_eta w'). f_equal; [|exact Hem].
  destruct Hb as [E|E]; rewrite E; [reflexivity|].
  apply set_opaque_same. exact Hz.
Qed.

Lemma filter_unarmed_is_passthrough_witness :
  file (SizeOnly.filter_on_disk0 0) = Some (mkChild SizeOnly.disk0) /\
  opaque (SizeOnly.filter_on_disk0 0) = 0 /\
  write_threshold_all Samples.traffic (mkWorld (SizeOnly.filter_on_disk0 0) [] 0)
  = Some ([0; 0; 0; 4195328; 0; 0],
          mkWorld (SizeOnly.filter_on_disk0 0) [] 4195328).
Proof.
  assert (H1 : file (SizeOnly.filter_on_disk0 0) = Some (mkChild SizeOnly.disk0))
    by reflexivity.
  assert (H2 : opaque (SizeOnly.filter_on_disk0 0) = 0) by reflexivity.
  do 2 (split; [assumption|]).
  rewrite (filter_unarmed_is_passthrough Samples.traffic
             (mkWorld (SizeOnly.filter_on_disk0 0) [] 0)
             (mkChild SizeOnly.disk0) H1 H2).
  vm_compute. reflexivity.
Defined.

(** The node a successful open leaves. *)
Lemma open_success_node (env : OpenEnv) (bs : BlockDriverState)
  (fl : BdsFlags) (c : BdrvChild) (child_fl : BdsFlags) :
  env_child env = Some (c, child_fl) -> env_absorb_err env = None ->
  file (open_bs (write_threshold_open env bs fl)) = Some c /\
  is_u64 (opaque (open_bs (write_threshold_open env bs fl))) /\
  (env_number env = None ->
   opaque (open_bs (write_threshold_open env bs fl)) = 0).
Proof.
  intros Hchild Habsorb. unfold write_threshold_open.
  rewrite Hchild, Habsorb. cbn.
  split; [reflexivity|]. split; [apply u64_range|].
  intros Hnone. unfold qemu_opt_get_number. rewrite Hnone. reflexivity.
Qed.

(** X15: after a successful [write_threshold_open], every run of requests
    through the node returns with the child's results and sends at most
    one event; when no threshold option was given it sends none. *)
Theorem open_then_traffic {Backend : Type} `{BlockLayer Backend}
  (env : OpenEnv) (bs : BlockDriverState) (fl : BdsFlags)
  (c : BdrvChild) (child_fl : BdsFlags) (ops : list FilterOp)
  (mon : list BlockWriteThresholdEvent) (b : Backend) :
  env_child env = Some (c, child_fl) -> env_absorb_err env = None ->
  exists rs w' evs,
    write_threshold_all ops
      (mkWorld (open_bs (write_threshold_open env bs fl)) mon b)
    = Some (rs, w') /\
    (rs, backend w') = direct_all c ops b /\
    monitor w' = mon ++ evs /\ (List.length evs <= 1)%nat /\
    (env_number env = None -> evs = []).
Proof.
  intros Hchild Habsorb.
  destruct (open_success_node env bs fl c child_fl Hchild Habsorb)
    as (Hfile & Hr & Hdefault).
  destruct (write_threshold_all_run ops
              (mkWorld (open_bs (write_threshold_open env bs fl)) mon b) c
              Hfile Hr)
    as (rs & w' & evs & Hrun & Hd & Hem & _ & _ & _ & _ & Hcnt).
  exists rs, w', evs. split; [exact Hrun|]. split; [exact Hd|].
  split; [exact Hem|]. cbn [bds] in Hcnt.
  assert (Hone : (filter_armed (open_bs (write_threshold_open env bs fl))
                  <= 1)%nat)
    by (unfold filter_armed;
        destruct (bdrv_write_threshold_is_set _); lia).
  split; [lia|]. intros Hnone.
  assert (Hoff : filter_armed (open_bs (write_threshold_open env bs fl))
                 = 0%nat)
    by (unfold filter_armed, bdrv_write_threshold_is_set;
        rewrite (Hdefault Hnone); reflexivity).
  rewrite Hoff in Hcnt. destruct evs; [reflexivity|cbn in Hcnt; lia].
Qed.

Lemma open_then_traffic_witness :
  env_child Samples.env_default
  = Some (mkChild SizeOnly.disk0, Samples.child_flags) /\
  env_absorb_err Samples.env_default = None /\
  exists rs w',
    write_threshold_all Samples.traffic
      (mkWorld (open_bs (write_threshold_open Samples.env_default
                           Samples.unopened Samples.no_flags)) [] 0)
    = Some (rs, w') /\
    monitor w' = [].
Proof.
  assert (H1 : env_child Samples.env_default
               = Some (mkChild SizeOnly.disk0, Samples.child_flags))
    by reflexivity.
  assert (H2 : env_absorb_err Samples.env_default = None) by reflexivity.
  do 2 (split; [assumption|]).
  destruct (open_then_traffic Samples.env_default Samples.unopened
              Samples.no_flags _ _ Samples.traffic [] 0 H1 H2)
    as (rs & w' & evs & Hrun & _ & Hmon & _ & Hnone).
  exists rs, w'. split; [exact Hrun|].
  rewrite Hmon, (Hnone eq_refl). reflexivity.
Defined.

(** X16: for a request in range, a write, a zero write and a discard all
    run the same check: an event is sent exactly when the threshold is
    positive and the request ends beyond it, with the bytes beyond the
    threshold as its amount, and the three forward to the child from the
    same node and monitor. *)
Theorem filter_write_crossing {Backend : Type} `{BlockLayer Backend}
  (w : World Backend) (c : BdrvChild) (offset bytes flags : Z)
  (qiov : QEMUIOVector) :
  file (bds w) = Some c -> is_u64 (opaque (bds w)) ->
  request_in_range offset bytes ->
  exists w1,
    emitted w w1 (crossing (node_name (c_bs c)) (opaque (bds w)) offset bytes) /\
    write_threshold_co_pwritev offset bytes qiov flags w
    = returned w1 (bdrv_co_pwritev c offset bytes qiov flags (backend w)) /\
    write_threshold_co_pwrite_zeroes offset bytes flags w
    = returned w1 (bdrv_co_pwrite_zeroes c offset bytes flags (backend w)) /\
    write_threshold_co_pdiscard offset bytes w
    = returned w1 (bdrv_co_pdiscard (c_bs c) offset bytes (backend w)).
Proof.
  intros Hfile Hr Hreq.
  assert (Ho : u64 offset = offset) by (apply u64_id; range).
  assert (Hb : u64 bytes = bytes) by (apply u64_id; range).
  destruct (check_then_forward w c offset bytes
              (fun child => bdrv_co_pwritev child offset bytes qiov flags) Hfile)
    as (w1 & Hcheck & Hwrite).
  destruct (check_then_forward w c offset bytes
              (fun child => bdrv_co_pwrite_zeroes child offset bytes flags) Hfile)
    as (w2 & Hcheck2 & Hzero).
  destruct (check_then_forward w c offset bytes
              (fun child => bdrv_co_pdiscard (c_bs child) offset bytes) Hfile)
    as (w3 & Hcheck3 & Hdiscard).
  rewrite Hcheck in Hcheck2, Hcheck3.
  injection Hcheck2 as <-. injection Hcheck3 as <-.
  exists w1. split; [|split; [exact Hwrite|split]].
  - rewrite check_amount_eval in Hcheck. cbn zeta in Hcheck.
    rewrite Hfile in Hcheck. unfold crossing, emitted.
    destruct (Z.ltb_spec 0 (opaque (bds w))) as [Hpos|Hoff]; cbn [andb].
    + rewrite exceeded_armed_value in Hcheck by assumption.
      destruct (Z.gtb_spec (offset + bytes) (opaque (bds w))) as [Hend|Hend];
        destruct (Z.ltb_spec (opaque (bds w)) (offset + bytes)); try lia.
      * destruct (Z.gtb_spec (offset + bytes - opaque (bds w)) 0); [|lia].
        injection Hcheck as <-. reflexivity.
      * cbn in Hcheck. injection Hcheck as <-. rewrite app_nil_r. reflexivity.
    + assert (Hz : opaque (bds w) = 0) by range.
      rewrite Hz, exceeded_zero_threshold in Hcheck. cbn in Hcheck.
      injection Hcheck as <-. rewrite app_nil_r. reflexivity.
  - unfold write_threshold_co_pwrite_zeroes. rewrite Ho, Hb. exact Hzero.
  - unfold write_threshold_co_pdiscard. rewrite Ho, Hb. exact Hdiscard.
Qed.

Lemma filter_write_crossing_witness :
  file (bds SizeOnly.filter_world) = Some (mkChild SizeOnly.disk0) /\
  is_u64 (opaque (bds SizeOnly.filter_world)) /\
  request_in_range (4 * SizeOnly.MiB) 1 /\
  exists w1,
    monitor w1 = [mkEvent "disk0" 1 4194304] /\
    write_threshold_co_pdiscard (4 * SizeOnly.MiB) 1 SizeOnly.filter_world
    = returned w1 (0, 0).
Proof.
  assert (H1 : file (bds SizeOnly.filter_world) = Some (mkChild SizeOnly.disk0))
    by reflexivity.
  assert (H2 : is_u64 (opaque (bds SizeOnly.filter_world))) by closed_range.
  assert (H3 : request_in_range (4 * SizeOnly.MiB) 1) by closed_range.
  do 3 (split; [assumption|]).
  destruct (filter_write_crossing SizeOnly.filter_world (mkChild SizeOnly.disk0)
              (4 * SizeOnly.MiB) 1 0 [] H1 H2 H3)
    as (w1 & Hem & _ & _ & Hdiscard).
  exists w1. split; [exact Hem|exact Hdiscard].
Defined.

(** ** The block status of the filter *)

Lemma s64_id (z : Z) : - (modulus / 2) <= z < modulus / 2 -> s64 z = z.
Proof.
  unfold s64. rewrite modulus_eq.
  change (18446744073709551616 / 2) with 9223372036854775808.
  intros Hz. rewrite Z.mod_small by lia. lia.
Qed.

Lemma lor_below_pow2 (a b n : Z) :
  0 <= n -> 0 <= a < 2 ^ n -> 0 <= b < 2 ^ n -> 0 <= Z.lor a b < 2 ^ n.
Proof.
  intros Hn Ha Hb.
  assert (Hnonneg : 0 <= Z.lor a b) by (apply Z.lor_nonneg; lia).
  split; [exact Hnonneg|].
  assert (Hq : Z.lor a b / 2 ^ n = 0).
  { rewrite <- Z.shiftr_div_pow2 by assumption.
    rewrite Z.shiftr_lor, !Z.shiftr_div_pow2 by assumption.
    rewrite !Z.div_small by assumption. reflexivity. }
  apply Z.div_small_iff in Hq; lia.
Qed.

(** X17: on a node that has its child, the block status the filter
    reports covers all the sectors asked for, points to the child, and
    packs the flags and the byte offset of [sector_num] without loss:
    shifting the status back gives the sector number and the low bits are
    the two flags. *)
Theorem block_status_roundtrip (k : BlockConsts) (bs : BlockDriverState)
  (c : BdrvChild) (sector_num nb_sectors : Z) :
  file bs = Some c ->
  0 <= BDRV_SECTOR_BITS k <= 63 ->
  0 <= BDRV_BLOCK_RAW k < 2 ^ BDRV_SECTOR_BITS k ->
  0 <= BDRV_BLOCK_OFFSET_VALID k < 2 ^ BDRV_SECTOR_BITS k ->
  0 <= sector_num < 2 ^ (63 - BDRV_SECTOR_BITS k) ->
  exists status,
    write_threshold_co_get_block_status k bs sector_num nb_sectors
    = Some (status, nb_sectors, c_bs c) /\
    Z.shiftr status (BDRV_SECTOR_BITS k) = sector_num /\
    Z.land status (Z.ones (BDRV_SECTOR_BITS k))
    = Z.lor (BDRV_BLOCK_RAW k) (BDRV_BLOCK_OFFSET_VALID k) /\
    0 <= status < 2 ^ 63.
Proof.
  intros Hfile Hbits Hraw Hvalid Hsec.
  unfold write_threshold_co_get_block_status, child_bs. rewrite Hfile. cbn.
  set (n := BDRV_SECTOR_BITS k) in *.
  set (F := Z.lor (BDRV_BLOCK_RAW k) (BDRV_BLOCK_OFFSET_VALID k)).
  assert (HF : 0 <= F < 2 ^ n) by (apply lor_below_pow2; lia).
  assert (Hpow : 2 ^ (63 - n) * 2 ^ n = 2 ^ 63)
    by (rewrite <- Z.pow_add_r by lia; f_equal; lia).
  assert (Hpn : 0 < 2 ^ n) by (apply Z.pow_pos_nonneg; lia).
  assert (Hshift : Z.shiftl sector_num n = sector_num * 2 ^ n)
    by (apply Z.shiftl_mul_pow2; lia).
  assert (Hfit : 0 <= sector_num * 2 ^ n < 2 ^ 63) by nia.
  assert (Hs64 : s64 (Z.shiftl sector_num n) = Z.shiftl sector_num n).
  { apply s64_id. rewrite Hshift, modulus_eq.
    change (18446744073709551616 / 2) with (2 ^ 63). lia. }
  rewrite Hs64. eexists. split; [reflexivity|]. split; [|split].
  - rewrite Z.shiftr_lor, Z.shiftr_shiftl_l by lia.
    rewrite Z.sub_diag, Z.shiftl_0_r, Z.shiftr_div_pow2 by lia.
    rewrite Z.div_small by lia. reflexivity.
  - rewrite Z.land_lor_distr_l, !Z.land_ones by lia.
    rewrite Hshift, Z.mod_mul by lia.
    rewrite Z.mod_small by lia. apply Z.lor_0_r.
  - assert (H63 : 0 <= Z.lor F (Z.shiftl sector_num n) < 2 ^ 63).
    { apply lor_below_pow2; [lia| |rewrite Hshift; exact Hfit].
      split; [lia|]. apply Z.lt_le_trans with (2 ^ n); [lia|].
      apply Z.pow_le_mono_r; lia. }
    exact H63.
Qed.

Lemma block_status_roundtrip_witness :
  file (bds SizeOnly.filter_world) = Some (mkChild SizeOnly.disk0) /\
  0 <= BDRV_SECTOR_BITS Samples.consts <= 63 /\
  0 <= BDRV_BLOCK_RAW Samples.consts < 2 ^ BDRV_SECTOR_BITS Samples.consts /\
  0 <= BDRV_BLOCK_OFFSET_VALID Samples.consts
    < 2 ^ BDRV_SECTOR_BITS Samples.consts /\
  0 <= 2048 < 2 ^ (63 - BDRV_SECTOR_BITS Samples.consts) /\
  write_threshold_co_get_block_status Samples.consts
    (bds SizeOnly.filter_world) 2048 16
  = Some (1048588, 16, SizeOnly.disk0).
Proof.
  assert (H1 : file (bds SizeOnly.filter_world) = Some (mkChild SizeOnly.disk0))
    by reflexivity.
  assert (H2 : 0 <= BDRV_SECTOR_BITS Samples.consts <= 63) by closed_range.
  assert (H3 : 0 <= BDRV_BLOCK_RAW Samples.consts
               < 2 ^ BDRV_SECTOR_BITS Samples.consts) by closed_range.
  assert (H4 : 0 <= BDRV_BLOCK_OFFSET_VALID Samples.consts
               < 2 ^ BDRV_SECTOR_BITS Samples.consts) by closed_range.
  assert (H5 : 0 <= 2048 < 2 ^ (63 - BDRV_SECTOR_BITS Samples.consts))
    by closed_range.
  do 5 (split; [assumption|]).
  destruct (block_status_roundtrip Samples.consts (bds SizeOnly.filter_world)
              (mkChild SizeOnly.disk0) 2048 16 H1 H2 H3 H4 H5)
    as (status & Hrun & _).
  rewrite Hrun. f_equal. f_equal. f_equal.
  injection Hrun as Hstatus. rewrite <- Hstatus. reflexivity.
Defined.

(** ** Re-arming *)

(** The callback on a write that crosses. *)
Lemma before_write_notify_crossing {Backend : Type} (w : World Backend)
  (req : BdrvTrackedRequest) :
  0 < bdrv_write_threshold_exceeded (write_threshold_offset (bds w))
        (u64 (req_offset req)) (u64 (req_bytes req)) ->
  before_write_notify req w
  = Some (0, mkWorld (write_threshold_disable_legacy (bds w))
               (monitor w
                  ++ [mkEvent (node_name (bds w))
                        (bdrv_write_threshold_exceeded
                           (write_threshold_offset (bds w))
                           (u64 (req_offset req)) (u64 (req_bytes req)))
                        (write_threshold_offset (bds w))])
               (backend w)).
Proof.
  intros Hpos. rewrite before_write_notify_eval. cbn zeta.
  destruct (Z.gtb_spec
              (bdrv_write_threshold_exceeded (write_threshold_offset (bds w))
                 (u64 (req_offset req)) (u64 (req_bytes req))) 0);
    [reflexivity|lia].
Qed.

(** X18: the one-event bound is per arming, not per node: when a write
    crosses the threshold, the threshold is then set to a new positive
    value and a write crosses that one, the callback sends a second
    event, carrying the new threshold, and disarms again. *)
Theorem legacy_rearm_fires_again {Backend : Type} (w : World Backend)
  (req1 req2 : BdrvTrackedRequest) (T2 : Z) :
  is_u64 (write_threshold_offset (bds w)) -> is_u64 T2 ->
  0 < bdrv_write_threshold_exceeded (write_threshold_offset (bds w))
        (u64 (req_offset req1)) (u64 (req_bytes req1)) ->
  0 < bdrv_write_threshold_exceeded T2
        (u64 (req_offset req2)) (u64 (req_bytes req2)) ->
  exists w',
    legacy_all [OpBeforeWrite req1; OpSetThreshold T2; OpBeforeWrite req2] w
    = Some (tt, w') /\
    emitted w w'
      [mkEvent (node_name (bds w))
         (bdrv_write_threshold_exceeded (write_threshold_offset (bds w))
            (u64 (req_offset req1)) (u64 (req_bytes req1)))
         (write_threshold_offset (bds w));
       mkEvent (node_name (bds w))
         (bdrv_write_threshold_exceeded T2
            (u64 (req_offset req2)) (u64 (req_bytes req2)))
         T2] /\
    bdrv_write_threshold_get_legacy (bds w') = 0.
Proof.
  intros Hr HT2 Hpos1 Hpos2.
  apply exceeded_pos_threshold_pos in Hpos1 as Harmed1; [|assumption].
  apply exceeded_pos_threshold_pos in Hpos2 as Harmed2; [|assumption].
  set (bs1 := write_threshold_disable_legacy (bds w)).
  assert (Hoff1 : write_threshold_offset bs1 = 0)
    by (apply disable_legacy_when_armed; assumption).
  set (bs2 := bdrv_write_threshold_set_legacy bs1 T2).
  assert (Hget2 : write_threshold_offset bs2 = T2).
  { apply (set_legacy_get bs1 T2); [rewrite Hoff1; range|assumption]. }
  assert (Hname2 : node_name bs2 = node_name (bds w)).
  { unfold bs2, bs1.
    rewrite set_legacy_node_name. apply disable_legacy_node_name. }
  eexists. split.
  - cbn [legacy_all legacy_op]. unfold bind at 1. unfold bind at 1.
    rewrite (before_write_notify_crossing w req1 Hpos1).
    cbn [ret]. unfold bind at 1. cbn [modify_bds bds monitor backend].
    fold bs1. fold bs2.
    unfold bind at 1. unfold bind at 1.
    rewrite before_write_notify_crossing
      by (cbn [bds]; rewrite Hget2; exact Hpos2).
    cbn [bds monitor backend ret]. unfold bind. cbn [ret]. reflexivity.
  - cbn [bds monitor]. rewrite Hget2, Hname2. split.
    + unfold emitted. cbn [monitor]. rewrite <- app_assoc. reflexivity.
    + unfold bdrv_write_threshold_get_legacy.
      apply disable_legacy_when_armed. rewrite Hget2. assumption.
Qed.

Lemma legacy_rearm_fires_again_witness :
  is_u64 (write_threshold_offset (bds SizeOnly.legacy_world)) /\
  is_u64 1024 /\
  0 < bdrv_write_threshold_exceeded
        (write_threshold_offset (bds SizeOnly.legacy_world))
        (u64 (req_offset SizeOnly.straddling))
        (u64 (req_bytes SizeOnly.straddling)) /\
  0 < bdrv_write_threshold_exceeded 1024
        (u64 (req_offset SizeOnly.below)) (u64 (req_bytes SizeOnly.below)) /\
  exists w',
    legacy_all [OpBeforeWrite SizeOnly.straddling; OpSetThreshold 1024;
                OpBeforeWrite SizeOnly.below] SizeOnly.legacy_world
    = Some (tt, w') /\
    monitor w' = [mkEvent "disk0" 1024 4194304; mkEvent "disk0" 1024 1024].
Proof.
  assert (H1 : is_u64 (write_threshold_offset (bds SizeOnly.legacy_world)))
    by closed_range.
  assert (H2 : is_u64 1024) by closed_range.
  assert (H3 : 0 < bdrv_write_threshold_exceeded
                     (write_threshold_offset (bds SizeOnly.legacy_world))
                     (u64 (req_offset SizeOnly.straddling))
                     (u64 (req_bytes SizeOnly.straddling)))
    by (vm_compute; reflexivity).
  assert (H4 : 0 < bdrv_write_threshold_exceeded 1024
                     (u64 (req_offset SizeOnly.below))
                     (u64 (req_bytes SizeOnly.below)))
    by (vm_compute; reflexivity).
  do 4 (split; [assumption|]).
  destruct (legacy_rearm_fires_again SizeOnly.legacy_world
              SizeOnly.straddling SizeOnly.below 1024 H1 H2 H3 H4)
    as (w' & Hrun & Hem & _).
  exists w'. split; [exact Hrun|exact Hem].
Defined.

(** ** The QMP command, repeated *)

Lemma bdrv_find_node_after_store (name : string) (g : Graph) :
  forall p bs bs',
    bdrv_find_node name g = Some (p, bs) -> node_name bs' = node_name bs ->
    bdrv_find_node name (graph_store p bs' g) = Some (p, bs').
Proof.
  induction g as [|x rest IH]; intros p bs bs' Hfind Hname; [discriminate|].
  cbn [bdrv_find_node] in Hfind.
  destruct (String.eqb_spec name (node_name x)) as [E|E].
  - injection Hfind as <- <-. cbn. rewrite Hname, <- E, String.eqb_refl.
    reflexivity.
  - destruct (bdrv_find_node name rest) as [[i found]|] eqn:Erest;
      [|discriminate].
    injection Hfind as <- <-. cbn.
    destruct (String.eqb_spec name (node_name x)); [contradiction|].
    rewrite (IH i found bs' eq_refl Hname). reflexivity.
Qed.

(** X19: two commands in a row for the same node name both succeed and
    leave that node with the second threshold; the first leaves no trace
    in the value. *)
Theorem qmp_last_write_wins (ctx_of : BlockDriverState -> AioContext)
  (name : string) (T1 T2 : Z) (w : QmpWorld)
  (p : nat) (bs : BlockDriverState) :
  bdrv_find_node name (graph w) = Some (p, bs) ->
  is_u64 (write_threshold_offset bs) -> is_u64 T1 -> is_u64 T2 ->
  exists w1 w2 bs2,
    qmp_block_set_write_threshold ctx_of name T1 w = (None, w1) /\
    qmp_block_set_write_threshold ctx_of name T2 w1 = (None, w2) /\
    nth_error (graph w2) p = Some bs2 /\
    bdrv_write_threshold_get_legacy bs2 = T2 /\
    bdrv_write_threshold_is_set_legacy bs2 = (T2 >? 0) /\
    aio_held w2 = aio_held w.
Proof.
  intros Hfind Hbs HT1 HT2.
  set (bs1 := bdrv_write_threshold_set_legacy bs T1).
  assert (Hget1 : write_threshold_offset bs1 = T1)
    by (apply (set_legacy_get bs T1); assumption).
  assert (Hfind1 : bdrv_find_node name (graph_store p bs1 (graph w))
                   = Some (p, bs1))
    by (apply (bdrv_find_node_after_store name (graph w) p bs bs1 Hfind);
        apply set_legacy_node_name).
  destruct (bdrv_find_node_some _ _ _ _ Hfind1) as [Hnth1 _].
  assert (Hget2 : write_threshold_offset (bdrv_write_threshold_set_legacy bs1 T2)
                  = T2)
    by (apply (set_legacy_get bs1 T2); [rewrite Hget1|]; assumption).
  eexists. eexists. exists (bdrv_write_threshold_set_legacy bs1 T2).
  split; [unfold qmp_block_set_write_threshold; rewrite Hfind; reflexivity|].
  split.
  - unfold qmp_block_set_write_threshold.
    unfold aio_context_release, aio_context_acquire. cbn [graph aio_held].
    fold bs1. rewrite Hfind1. reflexivity.
  - cbn [graph aio_held]. fold bs1.
    split; [apply (graph_store_same _ p bs1); exact Hnth1|].
    split; [exact Hget2|]. split.
    + unfold bdrv_write_threshold_is_set_legacy. rewrite Hget2. reflexivity.
    + rewrite !release_one_head. reflexivity.
Qed.

Lemma qmp_last_write_wins_witness :
  bdrv_find_node "disk0" (graph Samples.two_disks)
  = Some (0%nat, Samples.hooked_disk0) /\
  is_u64 (write_threshold_offset Samples.hooked_disk0) /\
  is_u64 4096 /\ is_u64 0 /\
  exists w1 w2,
    qmp_block_set_write_threshold Samples.ctx_of "disk0" 4096 Samples.two_disks
    = (None, w1) /\
    qmp_block_set_write_threshold Samples.ctx_of "disk0" 0 w1 = (None, w2) /\
    w2 = Samples.two_disks.
Proof.
  assert (H1 : bdrv_find_node "disk0" (graph Samples.two_disks)
               = Some (0%nat, Samples.hooked_disk0)) by reflexivity.
  assert (H2 : is_u64 (write_threshold_offset Samples.hooked_disk0))
    by closed_range.
  assert (H3 : is_u64 4096) by closed_range.
  assert (H4 : is_u64 0) by closed_range.
  do 4 (split; [assumption|]).
  destruct (qmp_last_write_wins Samples.ctx_of "disk0" 4096 0 Samples.two_disks
              0%nat Samples.hooked_disk0 H1 H2 H3 H4)
    as (w1 & w2 & bs2 & Hrun1 & Hrun2 & _).
  exists w1, w2. split; [exact Hrun1|]. split; [exact Hrun2|].
  assert (Hw1 : (None (A:=string), w1)
                = qmp_block_set_write_threshold Samples.ctx_of "disk0" 4096
                    Samples.two_disks) by (symmetry; exact Hrun1).
  vm_compute in Hw1. injection Hw1 as ->.
  vm_compute in Hrun2. injection Hrun2 as <-. reflexivity.
Defined.
